(** * netstat-monitor: the sampling engine of [netstat_monitor.c]

    A shallow embedding of the C program that polls one interface's
    counters in /proc/net/dev: the line parser, the counter source
    reader, the delta and rate functions, the renderer's inputs and the
    poll loop of [main].

    Conventions.
    - [uint64_t] and [unsigned long long] values are integers of [Z] in
      the range [0, 2^64); every arithmetic operation of the source on
      them is written with its reduction modulo [2^64].
    - [double] is the kernel's binary64 type [float].
    - A C string is the [list ascii] of its bytes before the terminating
      NUL.
    - A function that writes through a [net_stats_t *] takes the record
      the pointer designates and returns the record left behind. *)

From Stdlib Require Import ZArith Ascii String List Bool Lia Floats.
Import ListNotations.
Local Open Scope Z_scope.

(* ================================================================= *)
(** ** Fixed-width unsigned arithmetic *)

Module U64.

Definition modulus : Z := 2 ^ 64.
Definition max : Z := modulus - 1.          (* ULLONG_MAX, UINT64_MAX *)
Definition wrap (z : Z) : Z := z mod modulus.
Definition add (a b : Z) : Z := wrap (a + b).
Definition sub (a b : Z) : Z := wrap (a - b).
Definition neg (a : Z) : Z := wrap (- a).
Definition in_range (z : Z) : Prop := 0 <= z < modulus.

End U64.

(** The conversion of an integer to [double]: the nearest binary64, ties
    to even. *)
Definition double_of_Z (x : Z) : float :=
  SF2Prim (binary_normalize prec emax x 0 false).

(* ================================================================= *)
(** ** Delta / rate engine *)

(** The sub-expression [UINT64_C(0x100000000) - previous] of
    [safe_delta]. *)
Definition wrap_gap (previous : Z) : Z := U64.sub 0x100000000 previous.

Definition safe_delta (current previous : Z) : Z :=
  if current >=? previous then U64.sub current previous
  else U64.add (wrap_gap previous) current.

Record timespec := { tv_sec : Z; tv_nsec : Z }.

Definition timespec_diff (start end_ : timespec) : float :=
  let diff := double_of_Z (tv_sec end_ - tv_sec start) in
  (diff + double_of_Z (tv_nsec end_ - tv_nsec start) / 1e9)%float.

Definition calculate_rate (delta : Z) (elapsed_seconds : float) : float :=
  if (elapsed_seconds <=? 0.0)%float then 0.0%float
  else (double_of_Z delta / elapsed_seconds)%float.

(* ================================================================= *)
(** ** The C library functions the parser calls *)

Definition cstring := list ascii.

Definition MAX_LINE_LEN : nat := 1024.
Definition MAX_IFACE_LEN : nat := 64.

Definition code (c : ascii) : Z := Z.of_nat (nat_of_ascii c).

Definition NUL : ascii := ascii_of_nat 0.
Definition TAB : ascii := ascii_of_nat 9.
Definition LF : ascii := ascii_of_nat 10.
Definition CR : ascii := ascii_of_nat 13.
Definition SPACE : ascii := ascii_of_nat 32.
Definition PLUS : ascii := ascii_of_nat 43.
Definition MINUS : ascii := ascii_of_nat 45.
Definition COLON : ascii := ascii_of_nat 58.

(** The bytes of a buffer up to its first NUL: what the string
    functions see of it. *)
Fixpoint c_str (buf : list ascii) : cstring :=
  match buf with
  | [] => []
  | c :: r => if Ascii.eqb c NUL then [] else c :: c_str r
  end.

(** [strncpy(dst, src, n - 1)] followed by a NUL stored at [dst[n - 1]]
    leaves in [dst] the first [n - 1] bytes of [src]. *)
Definition strncpy_term (src : cstring) (n : nat) : cstring :=
  firstn (n - 1) src.

(** [strcmp(a, b) == 0]. *)
Fixpoint streq (a b : cstring) : bool :=
  match a, b with
  | [], [] => true
  | x :: a', y :: b' => Ascii.eqb x y && streq a' b'
  | _, _ => false
  end.

(** [p = strchr(s, c)] followed by a NUL stored at [p]: the string now
    left at [s] and the one at [p + 1]; [None] when [strchr] returns
    NULL. *)
Fixpoint strchr_cut (c : ascii) (s : cstring) : option (cstring * cstring) :=
  match s with
  | [] => None
  | x :: r =>
      if Ascii.eqb x c then Some ([], r)
      else match strchr_cut c r with
           | Some (before, after) => Some (x :: before, after)
           | None => None
           end
  end.

(** A space or a tab. *)
Definition is_blank (c : ascii) : bool :=
  Ascii.eqb c SPACE || Ascii.eqb c TAB.

(** Advance a pointer over the leading spaces and tabs of [s]. *)
Fixpoint skip_blanks (s : cstring) : cstring :=
  match s with
  | [] => []
  | c :: r => if is_blank c then skip_blanks r else s
  end.

(** Cut the spaces and tabs at the end of [s], last byte first. *)
Definition trim_trailing_blanks (s : cstring) : cstring :=
  rev (skip_blanks (rev s)).

(** The delimiters handed to [strtok_r]: space, tab, LF and CR. *)
Definition is_delim (c : ascii) : bool :=
  Ascii.eqb c SPACE || Ascii.eqb c TAB || Ascii.eqb c LF || Ascii.eqb c CR.

Fixpoint skip_delims (s : cstring) : cstring :=
  match s with
  | [] => []
  | c :: r => if is_delim c then skip_delims r else s
  end.

(** The token at the head of [s] and the save pointer behind the
    delimiter that ends it. *)
Fixpoint span_token (s : cstring) : cstring * cstring :=
  match s with
  | [] => ([], [])
  | c :: r =>
      if is_delim c then ([], r)
      else let (tok, save) := span_token r in (c :: tok, save)
  end.

(** One call of [strtok_r] on the text at the save pointer: [None] is
    the NULL it returns when only delimiters are left. *)
Definition strtok_r (s : cstring) : option (cstring * cstring) :=
  match skip_delims s with
  | [] => None
  | s' => Some (span_token s')
  end.

(** [isspace] in the C locale: space and the controls 9 to 13. *)
Definition isspace (c : ascii) : bool :=
  (code c =? 32) || ((9 <=? code c) && (code c <=? 13)).

Fixpoint skip_spaces (s : cstring) : cstring :=
  match s with
  | [] => []
  | c :: r => if isspace c then skip_spaces r else s
  end.

Definition is_digit (c : ascii) : bool :=
  (48 <=? code c) && (code c <=? 57).

Definition digit_value (c : ascii) : Z := code c - 48.

(** The leading decimal digits of [s] and what follows them. *)
Fixpoint span_digits (s : cstring) : cstring * cstring :=
  match s with
  | [] => ([], [])
  | c :: r =>
      if is_digit c
      then let (ds, rest) := span_digits r in (c :: ds, rest)
      else ([], s)
  end.

Definition decimal_value (ds : cstring) : Z :=
  fold_left (fun acc c => acc * 10 + digit_value c) ds 0.

Record strtoull_result := {
  value : Z;            (* the return value *)
  endptr : cstring;     (* the text at [*endptr] *)
  erange : bool         (* [errno == ERANGE] on return *)
}.

(** [strtoull(nptr, &endptr, 10)] with [errno] cleared before the call:
    optional white space, an optional sign, decimal digits. Without a
    digit nothing is converted and [endptr] is [nptr]; a magnitude above
    [ULLONG_MAX] gives [ULLONG_MAX] and [ERANGE]; a minus sign negates
    the converted value in the unsigned type. *)
Definition strtoull (nptr : cstring) : strtoull_result :=
  let s := skip_spaces nptr in
  let '(negative, s1) :=
    match s with
    | c :: r =>
        if Ascii.eqb c MINUS then (true, r)
        else if Ascii.eqb c PLUS then (false, r)
        else (false, s)
    | [] => (false, s)
    end in
  let '(ds, rest) := span_digits s1 in
  match ds with
  | [] => {| value := 0; endptr := nptr; erange := false |}
  | _ :: _ =>
      let v := decimal_value ds in
      if v >? U64.max
      then {| value := U64.max; endptr := rest; erange := true |}
      else {| value := if negative then U64.neg v else v;
              endptr := rest; erange := false |}
  end.

(** The strings successive calls of [fgets(line, size, fp)] return on a
    stream holding [s]: each ends behind a newline, or when [size - 1]
    bytes are stored, or at the end of the stream. [room] is the space
    left in the buffer, [buf] the bytes stored so far, last first. *)
Fixpoint fgets_from (size room : nat) (buf : list ascii) (s : list ascii)
  : list (list ascii) :=
  match s with
  | [] => match buf with [] => [] | _ :: _ => [rev buf] end
  | c :: r =>
      if Ascii.eqb c LF || (room <=? 1)%nat
      then rev (c :: buf) :: fgets_from size (size - 1) [] r
      else fgets_from size (room - 1) (c :: buf) r
  end.

Definition fgets_all (size : nat) (s : list ascii) : list (list ascii) :=
  fgets_from size (size - 1) [] s.

(* ================================================================= *)
(** ** Snapshots *)

Record net_stats_t := {
  interface : cstring;
  rx_bytes : Z;
  rx_packets : Z;
  rx_errors : Z;
  rx_drops : Z;
  tx_bytes : Z;
  tx_packets : Z;
  tx_errors : Z;
  tx_drops : Z;
  timestamp : timespec;
  valid : bool
}.

(** [net_stats_t s = {0};] *)
Definition zero_stats : net_stats_t :=
  {| interface := []; rx_bytes := 0; rx_packets := 0; rx_errors := 0;
     rx_drops := 0; tx_bytes := 0; tx_packets := 0; tx_errors := 0;
     tx_drops := 0; timestamp := {| tv_sec := 0; tv_nsec := 0 |};
     valid := false |}.

Definition set_timestamp (t : timespec) (s : net_stats_t) : net_stats_t :=
  {| interface := interface s;
     rx_bytes := rx_bytes s; rx_packets := rx_packets s;
     rx_errors := rx_errors s; rx_drops := rx_drops s;
     tx_bytes := tx_bytes s; tx_packets := tx_packets s;
     tx_errors := tx_errors s; tx_drops := tx_drops s;
     timestamp := t; valid := valid s |}.

(* ================================================================= *)
(** ** Line parser *)

(** The label of a row as [parse_interface_line] computes it into
    [iface_name], with the text behind the colon; [None] when the row
    has no colon. *)
Definition split_label (line : cstring) : option (cstring * cstring) :=
  let line_copy := strncpy_term line MAX_LINE_LEN in
  match strchr_cut COLON line_copy with
  | None => None
  | Some (before, after) =>
      let iface_start := skip_blanks before in
      let iface_name := strncpy_term iface_start MAX_IFACE_LEN in
      Some (trim_trailing_blanks iface_name, after)
  end.

(** The conversion loop
    [while (token && token_count < 16) { ... }]: [room] is
    [16 - token_count], [values] the entries of the array filled so far.
    [None] is the [return false] inside the loop. *)
Fixpoint convert_tokens (room : nat) (token : option (cstring * cstring))
    (values : list Z) : option (list Z) :=
  match room, token with
  | S room', Some (tok, saveptr) =>
      let r := strtoull tok in
      if erange r || negb (streq (endptr r) [])
      then None
      else convert_tokens room' (strtok_r saveptr) (values ++ [value r])
  | _, _ => Some values
  end.

Definition parse_interface_line (line interface_ : cstring)
    (stats : net_stats_t) : bool * net_stats_t :=
  match split_label line with
  | None => (false, stats)
  | Some (iface_name, token_ptr) =>
      if negb (streq iface_name interface_) then (false, stats)
      else
        match convert_tokens 16 (strtok_r token_ptr) [] with
        | None => (false, stats)
        | Some values =>
            if (List.length values <? 16)%nat then (false, stats)
            else
              (true,
               {| interface := strncpy_term interface_ MAX_IFACE_LEN;
                  rx_bytes := nth 0 values 0;
                  rx_packets := nth 1 values 0;
                  rx_errors := nth 2 values 0;
                  rx_drops := nth 3 values 0;
                  tx_bytes := nth 8 values 0;
                  tx_packets := nth 9 values 0;
                  tx_errors := nth 10 values 0;
                  tx_drops := nth 11 values 0;
                  timestamp := timestamp stats;
                  valid := true |})
        end
  end.

(* ================================================================= *)
(** ** Counter source reader *)

(** What one call of [read_net_stats] finds outside the program: the
    bytes of /proc/net/dev ([None]: [fopen] fails) and the monotonic
    clock's reading ([None]: [clock_gettime] fails). *)
Record source := {
  proc_net_dev : option (list ascii);
  clock_monotonic : option timespec
}.

(** The [while (fgets(...))] loop over the lines still to come;
    [line_num] counts the lines read before. *)
Fixpoint scan_lines (lines : list (list ascii)) (line_num : Z)
    (interface_ : cstring) (clock : option timespec) (stats : net_stats_t)
  : bool * net_stats_t :=
  match lines with
  | [] => (false, stats)
  | line :: rest =>
      let line_num := line_num + 1 in
      if line_num <=? 2 then scan_lines rest line_num interface_ clock stats
      else
        match parse_interface_line (c_str line) interface_ stats with
        | (true, stats') =>
            (true,
             match clock with
             | Some now => set_timestamp now stats'
             | None => set_timestamp {| tv_sec := 0; tv_nsec := 0 |} stats'
             end)
        | (false, stats') =>
            scan_lines rest line_num interface_ clock stats'
        end
  end.

Definition read_net_stats (src : source) (interface_ : cstring)
    (stats : net_stats_t) : bool * net_stats_t :=
  match proc_net_dev src with
  | None => (false, stats)
  | Some text =>
      scan_lines (fgets_all MAX_LINE_LEN text) 0 interface_
        (clock_monotonic src) stats
  end.

(* ================================================================= *)
(** ** Renderer *)

(** [snprintf(buffer, 32, "%llu", n)] for [n] below [10^fuel]: the
    decimal digits of [n], most significant first. *)
Fixpoint decimal_digits (fuel : nat) (n : Z) (acc : cstring) : cstring :=
  match fuel with
  | O => acc
  | S fuel' =>
      let acc' := ascii_of_nat (Z.to_nat (48 + n mod 10)) :: acc in
      if n / 10 =? 0 then acc' else decimal_digits fuel' (n / 10) acc'
  end.

Definition fmt_llu (n : Z) : cstring := decimal_digits 20 n [].

(** The loop [while (value >= 1024.0 && unit_idx < limit)] of
    [format_bytes] and [format_rate]; [steps] is [limit - unit_idx]. *)
Fixpoint scale_1024 (steps : nat) (value : float) (unit_idx : nat)
  : float * nat :=
  match steps with
  | O => (value, unit_idx)
  | S steps' =>
      if (1024.0 <=? value)%float
      then scale_1024 steps' (value / 1024.0)%float (S unit_idx)
      else (value, unit_idx)
  end.

(** The cells of one line of the table, as [print_stats] hands them to
    its last [printf]. *)
Record stats_line := {
  col_timestamp : cstring;
  col_interface : cstring;
  col_rx_bytes : cstring;
  col_rx_rate : cstring;
  col_rx_packets : Z;
  col_rx_pkt_rate : cstring;
  col_rx_errors : Z;
  col_rx_drops : Z;
  col_tx_bytes : cstring;
  col_tx_rate : cstring;
  col_tx_packets : Z;
  col_tx_pkt_rate : cstring;
  col_tx_errors : Z;
  col_tx_drops : Z
}.

(** The marker the rate cells are initialised with. *)
Definition DASH : cstring := [MINUS].

Section Rendering.

(** [printf]'s conversions of a [double], ["%.0f"] and ["%.1f"], belong
    to the C library and stay abstract. *)
Variables fmt_f0 fmt_f1 : float -> cstring.

(** [snprintf] into a buffer of 32 bytes keeps at most 31 of them. *)
Definition snprintf32 (text : cstring) : cstring := firstn 31 text.

Definition format_bytes (bytes : Z) : cstring :=
  let units := map list_ascii_of_string ["B"; "KB"; "MB"; "GB"; "TB"]%string in
  let '(value, unit_idx) := scale_1024 4 (double_of_Z bytes) 0 in
  if (unit_idx =? 0)%nat
  then snprintf32 (fmt_llu bytes ++ [SPACE] ++ nth unit_idx units [])
  else snprintf32 (fmt_f1 value ++ [SPACE] ++ nth unit_idx units []).

Definition format_rate (rate : float) : cstring :=
  let units := map list_ascii_of_string ["B/s"; "KB/s"; "MB/s"; "GB/s"]%string in
  let '(value, unit_idx) := scale_1024 3 rate 0 in
  if (rate <? 1.0)%float
  then snprintf32 (list_ascii_of_string "0 B/s")
  else if (unit_idx =? 0)%nat
  then snprintf32 (fmt_f0 value ++ [SPACE] ++ nth unit_idx units [])
  else snprintf32 (fmt_f1 value ++ [SPACE] ++ nth unit_idx units []).

(** [print_stats]; [previous] is [None] for the NULL pointer, [now] the
    text [strftime] made of the wall clock. *)
Definition print_stats (now : cstring) (current : net_stats_t)
    (previous : option net_stats_t) (elapsed : float) : stats_line :=
  let rx_bytes_str := format_bytes (rx_bytes current) in
  let tx_bytes_str := format_bytes (tx_bytes current) in
  let '(rx_rate_str, tx_rate_str, rx_pkt_rate_str, tx_pkt_rate_str) :=
    match previous with
    | Some previous =>
        if valid previous then
          let rx_delta := safe_delta (rx_bytes current) (rx_bytes previous) in
          let tx_delta := safe_delta (tx_bytes current) (tx_bytes previous) in
          let rx_pkt_delta :=
            safe_delta (rx_packets current) (rx_packets previous) in
          let tx_pkt_delta :=
            safe_delta (tx_packets current) (tx_packets previous) in
          let rx_rate := calculate_rate rx_delta elapsed in
          let tx_rate := calculate_rate tx_delta elapsed in
          let rx_pkt_rate := calculate_rate rx_pkt_delta elapsed in
          let tx_pkt_rate := calculate_rate tx_pkt_delta elapsed in
          (format_rate rx_rate, format_rate tx_rate,
           snprintf32 (fmt_f0 rx_pkt_rate), snprintf32 (fmt_f0 tx_pkt_rate))
        else (DASH, DASH, DASH, DASH)
    | None => (DASH, DASH, DASH, DASH)
    end in
  {| col_timestamp := now;
     col_interface := interface current;
     col_rx_bytes := rx_bytes_str;
     col_rx_rate := rx_rate_str;
     col_rx_packets := rx_packets current;
     col_rx_pkt_rate := rx_pkt_rate_str;
     col_rx_errors := rx_errors current;
     col_rx_drops := rx_drops current;
     col_tx_bytes := tx_bytes_str;
     col_tx_rate := tx_rate_str;
     col_tx_packets := tx_packets current;
     col_tx_pkt_rate := tx_pkt_rate_str;
     col_tx_errors := tx_errors current;
     col_tx_drops := tx_drops current |}.

End Rendering.

(* ================================================================= *)
(** ** Poll loop *)

Definition HEADER_INTERVAL : Z := 20.

(** What the argument parser of [main] leaves behind. [max_iterations]
    is [-1] when no count was given and positive otherwise. *)
Record config := {
  cfg_interface : cstring;
  interval : Z;
  max_iterations : Z
}.

Definition SIGINT : Z := 2.
Definition SIGTERM : Z := 15.

(** [signal_handler], on the flag [keep_running]. *)
Definition signal_handler (signum : Z) (keep_running_ : bool) : bool := false.

(** The places of one tick at which a signal may run the handler. *)
Inductive signal_point :=
| SigSampling                 (* while the tick reads and prints *)
| SigBeforeSleep              (* between the test guarding [sleep] and the call *)
| SigSleeping (after : Z).    (* [after] seconds into the sleep *)

(** What one tick of the loop meets outside the program: the counter
    source, and the signal delivered during the tick, if any, with the
    place of its delivery. *)
Record tick_env := {
  tick_source : source;
  tick_signal : option (Z * signal_point)
}.

(** The calls a tick makes, in order. *)
Inductive event :=
| EvRead (ok : bool)
| EvWarning
| EvPrintStats (current : net_stats_t) (previous : option net_stats_t)
    (elapsed : float)
| EvPrintHeader
| EvSleep (requested slept : Z).

Record loop_state := {
  keep_running : bool;
  current_stats : net_stats_t;
  previous_stats : net_stats_t;
  iteration : Z;
  lines_since_header : Z;
  trace : list event
}.

Definition at_sampling (point : signal_point) : bool :=
  match point with SigSampling => true | _ => false end.

Definition at_before_sleep (point : signal_point) : bool :=
  match point with SigBeforeSleep => true | _ => false end.

(** The flag once the program has passed a place: the handler has run
    if the tick's signal is delivered there. *)
Definition deliver (here : signal_point -> bool)
    (sig : option (Z * signal_point)) (flag : bool) : bool :=
  match sig with
  | Some (signum, point) =>
      if here point then signal_handler signum flag else flag
  | None => flag
  end.

(** [sleep(seconds)]: a signal whose handler runs during the sleep ends
    it at once. The flag behind the call and the seconds slept. *)
Definition sleep (flag : bool) (seconds : Z) (sig : option (Z * signal_point))
  : bool * Z :=
  match sig with
  | Some (signum, SigSleeping after) =>
      if (0 <=? after) && (after <? seconds)
      then (signal_handler signum flag, after)
      else (flag, seconds)
  | _ => (flag, seconds)
  end.

(** The loop condition of [main]. *)
Definition loop_guard (cfg : config) (running : bool) (iteration_ : Z)
  : bool :=
  running && ((max_iterations cfg <? 0) || (iteration_ <? max_iterations cfg)).

(** The body of the [while] loop of [main]. *)
Definition tick (cfg : config) (env : tick_env) (st : loop_state)
  : loop_state :=
  let sig := tick_signal env in
  let '(ok, current) :=
    read_net_stats (tick_source env) (cfg_interface cfg) (current_stats st) in
  let running := deliver at_sampling sig (keep_running st) in
  if negb ok then
    let '(running', slept) :=
      sleep (deliver at_before_sleep sig running) (interval cfg) sig in
    {| keep_running := running';
       current_stats := current;
       previous_stats := previous_stats st;
       iteration := iteration st;
       lines_since_header := lines_since_header st;
       trace := trace st ++ [EvRead false; EvWarning;
                             EvSleep (interval cfg) slept] |}
  else
    let previous := previous_stats st in
    let elapsed :=
      if valid previous
      then timespec_diff (timestamp previous) (timestamp current)
      else 0.0%float in
    let printed :=
      EvPrintStats current (if valid previous then Some previous else None)
        elapsed in
    let iteration' := iteration st + 1 in
    let lines := lines_since_header st + 1 in
    let '(header, lines') :=
      if HEADER_INTERVAL <=? lines then ([EvPrintHeader], 0) else ([], lines) in
    if loop_guard cfg running iteration' then
      let '(running', slept) :=
        sleep (deliver at_before_sleep sig running) (interval cfg) sig in
      {| keep_running := running';
         current_stats := current;
         previous_stats := current;
         iteration := iteration';
         lines_since_header := lines';
         trace := trace st ++ [EvRead true; printed] ++ header
                    ++ [EvSleep (interval cfg) slept] |}
    else
      {| keep_running := running;
         current_stats := current;
         previous_stats := current;
         iteration := iteration';
         lines_since_header := lines';
         trace := trace st ++ [EvRead true; printed] ++ header |}.

(** Where a run of the loop over a finite script of ticks ends: the
    loop has left its [while], or the script is used up with the loop
    still going. *)
Inductive outcome :=
| Stopped (st : loop_state)
| Running (st : loop_state).

Fixpoint main_loop (cfg : config) (script : list tick_env) (st : loop_state)
  : outcome :=
  if loop_guard cfg (keep_running st) (iteration st) then
    match script with
    | [] => Running st
    | env :: script' => main_loop cfg script' (tick cfg env st)
    end
  else Stopped st.

(** The state in which [main] enters the loop; [running] is false when a
    signal came before. *)
Definition loop_entry (running : bool) : loop_state :=
  {| keep_running := running;
     current_stats := zero_stats;
     previous_stats := zero_stats;
     iteration := 0;
     lines_since_header := 0;
     trace := [] |}.

(** The line a call recorded in the trace puts on the screen. *)
Definition rendered (fmt_f0 fmt_f1 : float -> cstring) (now : cstring)
    (e : event) : option stats_line :=
  match e with
  | EvPrintStats current previous elapsed =>
      Some (print_stats fmt_f0 fmt_f1 now current previous elapsed)
  | _ => None
  end.

(* ================================================================= *)
(** ** Command line, start and exit of [main] *)

Inductive exit_status := EXIT_SUCCESS | EXIT_FAILURE.

Definition DEFAULT_INTERVAL : Z := 2.

(** What [main] itself writes, besides the table. *)
Inductive message :=
| MsgUsage                                   (* [print_usage] *)
| MsgNoInterface                             (* no interface specified *)
| MsgRequiresArgument (option_ : cstring)
| MsgInvalidInterval (n : Z)
| MsgInvalidCount (n : Z)
| MsgUnknownOption (option_ : cstring)
| MsgNotFound (interface_ : cstring) (available : list cstring)
| MsgMonitoring (cfg : config)               (* banner and first header *)
| MsgStoppedBySignal
| MsgTotalIterations (n : Z).

Definition is_help (arg : cstring) : bool :=
  streq arg (list_ascii_of_string "-h")
  || streq arg (list_ascii_of_string "--help").

Definition is_interval_option (arg : cstring) : bool :=
  streq arg (list_ascii_of_string "-i")
  || streq arg (list_ascii_of_string "--interval").

Definition is_count_option (arg : cstring) : bool :=
  streq arg (list_ascii_of_string "-n")
  || streq arg (list_ascii_of_string "--count").

Section CommandLine.

(** [atoi] belongs to the C library; what it returns for a text is left
    open, the program testing the number it gets. *)
Variable atoi : cstring -> Z.

(** The loop over [argv[2]] and what follows; [interval_] and
    [max_iterations_] are the values set so far. The messages of the
    [return EXIT_FAILURE] that ends the loop early, or the two values. *)
Fixpoint parse_options (args : list cstring) (interval_ max_iterations_ : Z)
  : list message + Z * Z :=
  match args with
  | [] => inr (interval_, max_iterations_)
  | arg :: rest =>
      if is_interval_option arg then
        match rest with
        | [] => inl [MsgRequiresArgument arg]
        | text :: rest' =>
            let n := atoi text in
            if n <=? 0 then inl [MsgInvalidInterval n]
            else parse_options rest' n max_iterations_
        end
      else if is_count_option arg then
        match rest with
        | [] => inl [MsgRequiresArgument arg]
        | text :: rest' =>
            let n := atoi text in
            if n <=? 0 then inl [MsgInvalidCount n]
            else parse_options rest' interval_ n
        end
      else inl [MsgUnknownOption arg; MsgUsage]
  end.

(** The argument handling of [main]; [argv] holds the program name and
    the arguments. An early return with its status and messages, or the
    configuration of the run. *)
Definition parse_args (argv : list cstring)
  : exit_status * list message + config :=
  if existsb is_help (tl argv) then inl (EXIT_SUCCESS, [MsgUsage])
  else
    match tl argv with
    | [] => inl (EXIT_FAILURE, [MsgNoInterface; MsgUsage])
    | interface_ :: options =>
        match parse_options options DEFAULT_INTERVAL (-1) with
        | inl messages => inl (EXIT_FAILURE, messages)
        | inr (interval_, max_iterations_) =>
            inr {| cfg_interface := interface_;
                   interval := interval_;
                   max_iterations := max_iterations_ |}
        end
    end.

End CommandLine.

(** The label [main] prints for a line of the listing of available
    interfaces; [None] for a line without a colon. *)
Definition listed_label (line : cstring) : option cstring :=
  match strchr_cut COLON line with
  | None => None
  | Some (before, _) =>
      Some (trim_trailing_blanks
              (strncpy_term (skip_blanks before) MAX_IFACE_LEN))
  end.

(** The listing loop over the lines still to come. *)
Fixpoint list_labels (lines : list (list ascii)) (line_num : Z)
  : list cstring :=
  match lines with
  | [] => []
  | line :: rest =>
      let line_num := line_num + 1 in
      if line_num <=? 2 then list_labels rest line_num
      else
        match listed_label (c_str line) with
        | Some label => label :: list_labels rest line_num
        | None => list_labels rest line_num
        end
  end.

Definition available_interfaces (src : source) : list cstring :=
  match proc_net_dev src with
  | None => []
  | Some text => list_labels (fgets_all MAX_LINE_LEN text) 0
  end.

(** What a run of [main] meets outside the program: the counter source
    at the first read and at the listing, a signal delivered before the
    loop is entered, and the ticks to come. *)
Record world := {
  startup_source : source;
  listing_source : source;
  early_signal : option Z;
  script : list tick_env
}.

(** How a run over a finite script ends: [main] has returned, with its
    status, its messages and the last state of the loop if it was
    entered; or the script is used up with the loop still going. *)
Inductive main_result :=
| Exited (status : exit_status) (messages : list message)
    (final : option loop_state)
| StillRunning (st : loop_state).

Definition main (atoi : cstring -> Z) (argv : list cstring) (w : world)
  : main_result :=
  match parse_args atoi argv with
  | inl (status, messages) => Exited status messages None
  | inr cfg =>
      let '(ok, initial_stats) :=
        read_net_stats (startup_source w) (cfg_interface cfg) zero_stats in
      if negb ok then
        Exited EXIT_FAILURE
          [MsgNotFound (cfg_interface cfg)
             (available_interfaces (listing_source w))]
          None
      else
        let flag :=
          match early_signal w with
          | Some signum => signal_handler signum true
          | None => true
          end in
        match main_loop cfg (script w) (loop_entry flag) with
        | Running st => StillRunning st
        | Stopped st =>
            Exited EXIT_SUCCESS
              ([MsgMonitoring cfg]
               ++ (if negb (keep_running st) then [MsgStoppedBySignal] else [])
               ++ [MsgTotalIterations (iteration st)])
              (Some st)
        end
  end.

(* ================================================================= *)
(** ** Vocabulary of the statements *)

(** All the tokens of a string, as repeated calls of [strtok_r] would
    return them. *)
Fixpoint tokenize (s : cstring) : list cstring :=
  match s with
  | [] => []
  | c :: r =>
      if is_delim c then tokenize r
      else
        match r with
        | [] => [[c]]
        | d :: _ =>
            if is_delim d then [c] :: tokenize r
            else
              match tokenize r with
              | t :: ts => (c :: t) :: ts
              | [] => [[c]]
              end
        end
  end.

(** The test the conversion loop makes on a token: [errno] is still
    clear and [endptr] stands at the token's end. *)
Definition token_ok (tok : cstring) : bool :=
  negb (erange (strtoull tok)) && streq (endptr (strtoull tok)) [].

(** A token [strtoull] converts in full: white space ([isspace], of
    which a token can hold only VT and FF), an optional sign, and one or
    more decimal digits of a magnitude up to [ULLONG_MAX]. *)
Definition numeric_token (tok : cstring) : Prop :=
  exists ws sign ds,
    tok = ws ++ sign ++ ds /\
    forallb isspace ws = true /\
    (sign = [] \/ sign = [PLUS] \/ sign = [MINUS]) /\
    ds <> [] /\ forallb is_digit ds = true /\
    decimal_value ds <= U64.max.

(** The number the loop stores for a token. *)
Definition converted (tok : cstring) : Z := value (strtoull tok).

(** The snapshot a successful parse writes. *)
Definition parsed_stats (interface_ : cstring) (values : list Z)
    (stats : net_stats_t) : net_stats_t :=
  {| interface := strncpy_term interface_ MAX_IFACE_LEN;
     rx_bytes := nth 0 values 0; rx_packets := nth 1 values 0;
     rx_errors := nth 2 values 0; rx_drops := nth 3 values 0;
     tx_bytes := nth 8 values 0; tx_packets := nth 9 values 0;
     tx_errors := nth 10 values 0; tx_drops := nth 11 values 0;
     timestamp := timestamp stats; valid := true |}.

(** The bytes of a text file with the given lines. *)
Definition text_lines (rows : list string) : list ascii :=
  flat_map (fun row => list_ascii_of_string row ++ [LF]) rows.

(** The two header lines of /proc/net/dev. *)
Definition proc_header : list string :=
  ["Inter-|   Receive                            |  Transmit";
   " face |bytes    packets errs drop fifo frame |bytes    packets errs drop"
  ]%string.

(** A token made of decimal digits only, of a value that fits 64
    bits. *)
Definition digits_token (tok : cstring) : Prop :=
  tok <> [] /\ forallb is_digit tok = true /\ decimal_value tok <= U64.max.

(** The sampling attempts in a trace, and those that succeeded. *)
Definition is_read (e : event) : bool :=
  match e with EvRead _ => true | _ => false end.

Definition is_good_read (e : event) : bool :=
  match e with EvRead true => true | _ => false end.

Definition reads (t : list event) : nat := List.length (filter is_read t).

Definition successes (t : list event) : nat :=
  List.length (filter is_good_read t).

(** The calls of [print_stats] in a trace. *)
Definition is_print (e : event) : bool :=
  match e with EvPrintStats _ _ _ => true | _ => false end.

(** The state a run over a script ends in. *)
Definition state_of (o : outcome) : loop_state :=
  match o with Stopped st => st | Running st => st end.

(** A line whose four delta and rate cells hold the marker. *)
Definition rates_unavailable (line : stats_line) : Prop :=
  col_rx_rate line = DASH /\ col_tx_rate line = DASH /\
  col_rx_pkt_rate line = DASH /\ col_tx_pkt_rate line = DASH.

(** Whether the read of a tick succeeds, which the snapshot handed in
    has no part in. *)
Definition read_ok (cfg : config) (env : tick_env) : bool :=
  fst (read_net_stats (tick_source env) (cfg_interface cfg) zero_stats).

(** A tick during which no signal is delivered. *)
Definition quiet (env : tick_env) : Prop := tick_signal env = None.

(** The number of ticks of [script] it takes to see [needed] successful
    reads; [None] when the script has fewer. *)
Fixpoint ticks_until (cfg : config) (needed : nat) (script : list tick_env)
  {struct script} : option nat :=
  match needed, script with
  | O, _ => Some O
  | S _, [] => None
  | S needed', env :: script' =>
      option_map S
        (ticks_until cfg (if read_ok cfg env then needed' else needed) script')
  end.

(** Sample surroundings of a tick: a source in which [eth0] has a well
    formed row, one from which the row is gone, and ticks reading them
    with no signal. *)
Definition sample_source (rx tx : string) (seconds : Z) : source :=
  {| proc_net_dev :=
       Some (text_lines
               (proc_header ++
                ["    lo: 100 2 0 0 0 0 0 0 100 2 0 0 0 0 0 0";
                 "  eth0: " ++ rx ++ " 20 1 2 0 0 0 0 " ++ tx ++ " 40 5 6 0 0 0 0"
                ]%string));
     clock_monotonic := Some {| tv_sec := seconds; tv_nsec := 0 |} |}.

Definition source_without_eth0 : source :=
  {| proc_net_dev :=
       Some (text_lines
               (proc_header ++
                ["    lo: 100 2 0 0 0 0 0 0 100 2 0 0 0 0 0 0"]%string));
     clock_monotonic := Some {| tv_sec := 0; tv_nsec := 0 |} |}.

Definition sample_config (count : Z) : config :=
  {| cfg_interface := list_ascii_of_string "eth0";
     interval := 2;
     max_iterations := count |}.

(** The eight counters of a snapshot, in the order of the columns they
    come from: 0 to 3 and 8 to 11. *)
Definition counters (s : net_stats_t) : list Z :=
  [rx_bytes s; rx_packets s; rx_errors s; rx_drops s;
   tx_bytes s; tx_packets s; tx_errors s; tx_drops s].

Definition used_columns {A} (d : A) (row : list A) : list A :=
  [nth 0 row d; nth 1 row d; nth 2 row d; nth 3 row d;
   nth 8 row d; nth 9 row d; nth 10 row d; nth 11 row d].

(** The calls of [print_stats] and of [print_header] in a trace. *)
Definition prints (t : list event) : nat := List.length (filter is_print t).

Definition is_header (e : event) : bool :=
  match e with EvPrintHeader => true | _ => false end.

Definition headers (t : list event) : nat := List.length (filter is_header t).

Definition is_sleep (e : event) : bool :=
  match e with EvSleep _ _ => true | _ => false end.

(** The counters of the loop against its trace. *)
Definition counted (st : loop_state) : Prop :=
  iteration st = Z.of_nat (prints (trace st)) /\
  iteration st = Z.of_nat (successes (trace st)) /\
  0 <= lines_since_header st < HEADER_INTERVAL /\
  iteration st
  = HEADER_INTERVAL * Z.of_nat (headers (trace st)) + lines_since_header st.

(** The pairs (current, previous) the calls of [print_stats] in a trace
    were given, in order. *)
Fixpoint print_calls (t : list event)
  : list (net_stats_t * option net_stats_t) :=
  match t with
  | [] => []
  | EvPrintStats current previous _ :: t' =>
      (current, previous) :: print_calls t'
  | _ :: t' => print_calls t'
  end.

(** A sequence of calls in which the first is given no previous
    snapshot and each other one the current snapshot of the call before
    it; [last] is the current snapshot of the call before the
    sequence. *)
Fixpoint chained (last : option net_stats_t)
    (calls : list (net_stats_t * option net_stats_t)) : Prop :=
  match calls with
  | [] => True
  | (current, previous) :: calls' =>
      previous = last /\ chained (Some current) calls'
  end.

(** The current snapshot of the last call of a sequence, [last] when
    there is none. *)
Definition last_current (last : option net_stats_t)
    (calls : list (net_stats_t * option net_stats_t)) : option net_stats_t :=
  fold_left (fun _ call => Some (fst call)) calls last.

(** The previous snapshot the loop retains is the current snapshot of
    its last call of [print_stats], and the calls so far are chained. *)
Definition linked (st : loop_state) : Prop :=
  chained None (print_calls (trace st)) /\
  last_current None (print_calls (trace st))
  = (if valid (previous_stats st) then Some (previous_stats st) else None).

(** A trace in which every failed read is followed at once by the
    warning and by a sleep of the whole of [seconds]. *)
Fixpoint failed_reads_sleep (seconds : Z) (t : list event) : Prop :=
  match t with
  | [] => True
  | EvRead false :: t' =>
      (exists rest, t' = EvWarning :: EvSleep seconds seconds :: rest) /\
      failed_reads_sleep seconds t'
  | _ :: t' => failed_reads_sleep seconds t'
  end.

(** A text of spaces and tabs only; a text free of colons. *)
Definition blanks (s : cstring) : Prop := forallb is_blank s = true.

Definition colon_free (s : cstring) : Prop :=
  forallb (fun c => negb (Ascii.eqb c COLON)) s = true.

(** A label as it stands in a row: without a colon and without a space
    or a tab at either end. *)
Definition clean_label (label : cstring) : Prop :=
  colon_free label /\
  match label with [] => True | c :: _ => is_blank c = false end /\
  match rev label with [] => True | c :: _ => is_blank c = false end.

(** Bounds of the unsigned 64-bit range, by linear arithmetic. *)
Ltac u64_lia := unfold U64.in_range, U64.max, U64.modulus in *; lia.

(* ================================================================= *)
(** * Properties *)

(* ----------------------------------------------------------------- *)
(** ** Delta engine *)

Lemma u64_wrap_range z : U64.in_range (U64.wrap z).
Proof.
  unfold U64.in_range, U64.wrap, U64.modulus.
  apply Z.mod_pos_bound. lia.
Qed.

Lemma u64_wrap_small z : U64.in_range z -> U64.wrap z = z.
Proof.
  unfold U64.in_range, U64.wrap. intros H. now apply Z.mod_small.
Qed.

Lemma u64_wrap_below z :
  - U64.modulus <= z < 0 -> U64.wrap z = z + U64.modulus.
Proof.
  unfold U64.wrap, U64.modulus. intros H.
  symmetry. apply Z.mod_unique with (q := -1); lia.
Qed.

Lemma safe_delta_in_range current previous :
  U64.in_range (safe_delta current previous).
Proof.
  unfold safe_delta, U64.add, U64.sub.
  destruct (current >=? previous); apply u64_wrap_range.
Qed.

Lemma safe_delta_mod current previous :
  current < previous ->
  safe_delta current previous =
  ((0x100000000 - previous) + current) mod 2 ^ 64.
Proof.
  intros Hlt. unfold safe_delta.
  destruct (Z.geb_spec current previous) as [Hge | _]; [lia |].
  unfold U64.add, wrap_gap, U64.sub, U64.wrap, U64.modulus.
  now rewrite Zplus_mod_idemp_l.
Qed.

Lemma safe_delta_ge current previous :
  U64.in_range current -> U64.in_range previous -> previous <= current ->
  safe_delta current previous = current - previous.
Proof.
  unfold U64.in_range. intros Hc Hp Hle. unfold safe_delta.
  destruct (Z.geb_spec current previous) as [_ | Hlt]; [| lia].
  apply u64_wrap_small. u64_lia.
Qed.

(** C3, as stated, fails: for [previous = 2^33] and [current = 0] the
    code's wrap branch returns [2^64 - 2^32], while
    [(2^32 - previous) + current] is [-2^32]. *)
Lemma safe_delta_plain_formula_counterexample :
  U64.in_range 0 /\ U64.in_range 8589934592 /\
  safe_delta 0 8589934592 = 18446744069414584320 /\
  (2 ^ 32 - 8589934592) + 0 = -4294967296 /\
  safe_delta 0 8589934592 <> (2 ^ 32 - 8589934592) + 0.
Proof.
  unfold U64.in_range, U64.modulus.
  repeat split; try reflexivity; try lia; discriminate.
Qed.

(** C3 (amended): for unsigned 64-bit [current] and [previous],
    [safe_delta] returns [current - previous] when
    [current >= previous]; otherwise it returns
    [(2^32 - previous) + current] reduced modulo [2^64], which is
    [(2^32 - previous) + current] itself whenever
    [previous - current <= 2^32]. For [previous = 4294967290] and
    [current = 10] the delta is [16]. *)
Theorem safe_delta_spec current previous :
  U64.in_range current -> U64.in_range previous ->
  (previous <= current -> safe_delta current previous = current - previous) /\
  (current < previous ->
   safe_delta current previous = ((2 ^ 32 - previous) + current) mod 2 ^ 64) /\
  (current < previous -> previous - current <= 2 ^ 32 ->
   safe_delta current previous = (2 ^ 32 - previous) + current) /\
  safe_delta 10 4294967290 = 16.
Proof.
  intros Hc Hp. repeat split.
  - now apply safe_delta_ge.
  - intros Hlt. now rewrite safe_delta_mod.
  - intros Hlt Hnear. rewrite safe_delta_mod by assumption.
    unfold U64.in_range, U64.modulus in *.
    apply Z.mod_small. lia.
Qed.

Lemma safe_delta_spec_witness :
  safe_delta 10 4294967290 = (2 ^ 32 - 4294967290) + 10.
Proof.
  refine (proj1 (proj2 (proj2 (safe_delta_spec 10 4294967290 _ _))) _ _);
    u64_lia.
Defined.

(** C10, as stated, fails: with [previous >= 2^32] and
    [current < previous] the subtraction [2^32 - previous] need not
    underflow and the delta need not be enormous. At [previous = 2^32]
    the subtraction is [0] and [safe_delta 0 (2^32)] is [0]; for
    [previous = 2^32 + 5] and [current = 2^32 + 3] the delta is
    [4294967294], which is the plain [(2^32 - previous) + current]. *)
Lemma safe_delta_underflow_counterexample :
  U64.in_range 4294967299 /\ U64.in_range 4294967301 /\
  4294967299 < 4294967301 /\ 2 ^ 32 <= 4294967301 /\
  safe_delta 4294967299 4294967301 = 4294967294 /\
  (2 ^ 32 - 4294967301) + 4294967299 = 4294967294 /\
  safe_delta 4294967299 4294967301 < 2 ^ 32 /\
  wrap_gap 4294967296 = 0 /\
  2 ^ 32 - 4294967296 = 0 /\
  safe_delta 0 4294967296 = 0.
Proof.
  unfold U64.in_range, U64.modulus.
  repeat split; try reflexivity; lia.
Qed.

(** C10 (amended): [safe_delta] is total, with a result in the unsigned
    64-bit range. The subtraction [2^32 - previous] is taken modulo
    [2^64]: it is the plain difference exactly when
    [previous <= 2^32], and wraps to [2^64 + 2^32 - previous] when
    [previous > 2^32]. In the wrap branch, for every pair with
    [current < previous], the delta returned is
    [(current - previous + 2^32) mod 2^64]: the plain
    [(2^32 - previous) + current], below [2^32], when
    [previous - current <= 2^32] (in particular whenever
    [previous <= 2^32]), and the enormous
    [2^64 + 2^32 - previous + current], above [2^32], when
    [previous - current > 2^32]; so the plain formula is the result
    exactly when [previous - current <= 2^32]. *)
Theorem safe_delta_wrap_modular current previous :
  U64.in_range current -> U64.in_range previous ->
  U64.in_range (safe_delta current previous) /\
  wrap_gap previous = (2 ^ 32 - previous) mod 2 ^ 64 /\
  (wrap_gap previous = 2 ^ 32 - previous <-> previous <= 2 ^ 32) /\
  (2 ^ 32 < previous -> wrap_gap previous = 2 ^ 64 + 2 ^ 32 - previous) /\
  (current < previous ->
   safe_delta current previous = (current - previous + 2 ^ 32) mod 2 ^ 64 /\
   (previous - current <= 2 ^ 32 ->
    safe_delta current previous = (2 ^ 32 - previous) + current /\
    safe_delta current previous < 2 ^ 32) /\
   (2 ^ 32 < previous - current ->
    safe_delta current previous = 2 ^ 64 + 2 ^ 32 - previous + current /\
    2 ^ 32 < safe_delta current previous) /\
   (safe_delta current previous = (2 ^ 32 - previous) + current <->
    previous - current <= 2 ^ 32)).
Proof.
  intros Hc Hp. split; [apply safe_delta_in_range |].
  unfold U64.in_range, U64.modulus in Hc, Hp.
  assert (Hwrap : 2 ^ 32 < previous ->
                  wrap_gap previous = 2 ^ 64 + 2 ^ 32 - previous).
  { intros Hbig. unfold wrap_gap, U64.sub.
    rewrite u64_wrap_below; unfold U64.modulus; lia. }
  split; [reflexivity |]. split; [| split; [exact Hwrap |]].
  - split.
    + intros E. pose proof (u64_wrap_range (0x100000000 - previous)) as Hr.
      change (U64.wrap (0x100000000 - previous)) with (wrap_gap previous) in Hr.
      unfold U64.in_range in Hr. lia.
    + intros Hsmall. unfold wrap_gap, U64.sub.
      rewrite u64_wrap_small; [reflexivity | u64_lia].
  - intros Hlt. rewrite safe_delta_mod by assumption.
    change 0x100000000 with (2 ^ 32).
    replace (2 ^ 32 - previous + current) with (current - previous + 2 ^ 32)
      by lia.
    assert (Hfar : 2 ^ 32 < previous - current ->
                   (current - previous + 2 ^ 32) mod 2 ^ 64
                   = 2 ^ 64 + 2 ^ 32 - previous + current).
    { intros Hfar. symmetry. apply Z.mod_unique with (q := -1); lia. }
    split; [reflexivity | split; [| split]].
    + intros Hnear. rewrite Z.mod_small by lia. lia.
    + intros Hgap. rewrite (Hfar Hgap). lia.
    + split.
      * intros E. destruct (Z.le_gt_cases (previous - current) (2 ^ 32))
          as [Hnear | Hgap]; [exact Hnear |].
        rewrite (Hfar Hgap) in E. lia.
      * intros Hnear. rewrite Z.mod_small by lia. lia.
Qed.

Lemma safe_delta_wrap_modular_witness :
  safe_delta 5 8589934592 = 2 ^ 64 + 2 ^ 32 - 8589934592 + 5.
Proof.
  refine (proj1 (proj1 (proj2 (proj2 (proj2 (proj2 (proj2 (proj2
            (safe_delta_wrap_modular 5 8589934592 _ _)))) _))) _));
    u64_lia.
Defined.

(* ----------------------------------------------------------------- *)
(** ** Rate *)

Lemma double_positive_not_le_zero (x : float) :
  (0 <? x)%float = true -> (x <=? 0)%float = false.
Proof.
  rewrite ltb_spec, leb_spec.
  change (Prim2SF 0) with (S754_zero false).
  destruct (Prim2SF x) as [[] | [] | | [] m e];
    cbv [SFltb SFleb SFcompare]; congruence.
Qed.

(** C4: [calculate_rate] returns exactly [0] whenever
    [elapsed <= 0], and the quotient of the delta (converted to
    [double]) by [elapsed] whenever [elapsed > 0]; a delta of 2048 over
    2.0 seconds gives 1024.0. *)
Theorem calculate_rate_spec (delta : Z) (elapsed : float) :
  ((elapsed <=? 0)%float = true -> calculate_rate delta elapsed = 0%float) /\
  ((0 <? elapsed)%float = true ->
   calculate_rate delta elapsed = (double_of_Z delta / elapsed)%float) /\
  calculate_rate 2048 2.0 = 1024.0%float.
Proof.
  unfold calculate_rate. repeat split.
  - intros H. now rewrite H.
  - intros H. now rewrite (double_positive_not_le_zero _ H).
Qed.

Lemma calculate_rate_spec_witness :
  calculate_rate 7 (-1.5) = 0%float /\
  calculate_rate 3048 0.5 = (double_of_Z 3048 / 0.5)%float.
Proof.
  split.
  - exact (proj1 (calculate_rate_spec 7 (-1.5)) eq_refl).
  - exact (proj1 (proj2 (calculate_rate_spec 3048 0.5)) eq_refl).
Defined.

(* ----------------------------------------------------------------- *)
(** ** Strings and tokens *)

Lemma streq_true_iff (a b : cstring) : streq a b = true <-> a = b.
Proof.
  revert b. induction a as [| x a IH]; intros [| y b]; simpl;
    try (split; [discriminate | discriminate]); [tauto |].
  rewrite andb_true_iff, Ascii.eqb_eq, IH.
  split; [intros [-> ->]; reflexivity | intros E; injection E; auto].
Qed.

Lemma streq_nil (a : cstring) : streq a [] = true <-> a = [].
Proof. apply streq_true_iff. Qed.

Lemma span_token_eq (c : ascii) (r : cstring) :
  is_delim c = false ->
  span_token (c :: r) = (c :: fst (span_token r), snd (span_token r)).
Proof.
  intros Hc. simpl. rewrite Hc. now destruct (span_token r).
Qed.

Lemma strtok_r_delim (c : ascii) (r : cstring) :
  is_delim c = true -> strtok_r (c :: r) = strtok_r r.
Proof. intros Hc. unfold strtok_r. simpl. now rewrite Hc. Qed.

Lemma strtok_r_token (c : ascii) (r : cstring) :
  is_delim c = false -> strtok_r (c :: r) = Some (span_token (c :: r)).
Proof. intros Hc. unfold strtok_r. simpl skip_delims. now rewrite Hc. Qed.

(** [tokenize] lists what successive calls of [strtok_r] return. *)
Lemma tokenize_strtok_r (s : cstring) :
  tokenize s =
  match strtok_r s with
  | None => []
  | Some (tok, saveptr) => tok :: tokenize saveptr
  end.
Proof.
  induction s as [| c r IH]; [reflexivity |].
  destruct (is_delim c) eqn:Hc.
  - rewrite strtok_r_delim by assumption. simpl. now rewrite Hc.
  - rewrite strtok_r_token, span_token_eq by assumption.
    simpl tokenize. rewrite Hc.
    destruct r as [| d r']; [reflexivity |].
    destruct (is_delim d) eqn:Hd.
    + simpl span_token. rewrite Hd. simpl. now rewrite Hd.
    + rewrite IH, strtok_r_token by assumption.
      now destruct (span_token (d :: r')).
Qed.

Lemma strtok_r_nonempty (s tok saveptr : cstring) :
  strtok_r s = Some (tok, saveptr) -> tok <> [].
Proof.
  induction s as [| c r IH]; [discriminate |].
  destruct (is_delim c) eqn:Hc.
  - now rewrite strtok_r_delim.
  - rewrite strtok_r_token, span_token_eq by assumption.
    intros E. injection E as <- _. discriminate.
Qed.

Lemma tokenize_nonempty (s : cstring) :
  Forall (fun tok => tok <> []) (tokenize s).
Proof.
  induction s as [| c r IH]; simpl; [constructor |].
  destruct (is_delim c); [assumption |].
  destruct r as [| d r']; [repeat constructor; discriminate |].
  destruct (is_delim d); [constructor; [discriminate | assumption] |].
  destruct (tokenize (d :: r')) as [| t ts];
    [repeat constructor; discriminate |].
  inversion IH; subst. constructor; [discriminate | assumption].
Qed.

(* ----------------------------------------------------------------- *)
(** ** [strtoull] *)

Lemma digit_not_space (c : ascii) : is_digit c = true -> isspace c = false.
Proof. unfold is_digit, isspace. lia. Qed.

Lemma digit_not_sign (c : ascii) :
  is_digit c = true -> Ascii.eqb c MINUS = false /\ Ascii.eqb c PLUS = false.
Proof.
  intros H. split.
  - destruct (Ascii.eqb_spec c MINUS) as [-> |]; [discriminate | reflexivity].
  - destruct (Ascii.eqb_spec c PLUS) as [-> |]; [discriminate | reflexivity].
Qed.

Lemma skip_spaces_app (ws r : cstring) :
  forallb isspace ws = true -> skip_spaces (ws ++ r) = skip_spaces r.
Proof.
  induction ws as [| c ws IH]; simpl; [reflexivity |].
  rewrite andb_true_iff. intros [Hc Hws]. rewrite Hc. auto.
Qed.

Lemma skip_spaces_split (s : cstring) :
  exists ws, s = ws ++ skip_spaces s /\ forallb isspace ws = true.
Proof.
  induction s as [| c r (ws & E & Hws)]; [now exists [] |].
  simpl. destruct (isspace c) eqn:Hc.
  - exists (c :: ws). simpl. rewrite Hc, Hws. split; [now f_equal | reflexivity].
  - now exists [].
Qed.

Lemma span_digits_split (s : cstring) :
  s = fst (span_digits s) ++ snd (span_digits s) /\
  forallb is_digit (fst (span_digits s)) = true.
Proof.
  induction s as [| c r [E Hd]]; [now split |].
  simpl. destruct (is_digit c) eqn:Hc; [| now split].
  destruct (span_digits r) as [ds rest]. simpl in *.
  rewrite Hc, Hd. split; [now f_equal | reflexivity].
Qed.

Lemma span_digits_all (ds : cstring) :
  forallb is_digit ds = true -> span_digits ds = (ds, []).
Proof.
  induction ds as [| c ds IH]; simpl; [reflexivity |].
  rewrite andb_true_iff. intros [Hc Hds]. now rewrite Hc, IH.
Qed.

Lemma decimal_value_nonneg (ds : cstring) :
  forallb is_digit ds = true -> 0 <= decimal_value ds.
Proof.
  unfold decimal_value.
  assert (G : forall acc, 0 <= acc -> forallb is_digit ds = true ->
              0 <= fold_left (fun a c => a * 10 + digit_value c) ds acc).
  { induction ds as [| c ds IH]; intros acc Hacc Hall; [exact Hacc |].
    simpl in Hall. apply andb_true_iff in Hall as [Hc Hall].
    simpl. apply IH; [| assumption].
    unfold is_digit in Hc. unfold digit_value. lia. }
  apply G. lia.
Qed.

(** Whatever the text, [strtoull] returns an unsigned 64-bit value. *)
Lemma strtoull_value_in_range (nptr : cstring) :
  U64.in_range (value (strtoull nptr)).
Proof.
  unfold strtoull.
  destruct (match skip_spaces nptr with
            | [] => (false, skip_spaces nptr)
            | c :: r => _
            end) as [negative s1].
  destruct (span_digits_split s1) as [_ Hall].
  destruct (span_digits s1) as [[| d ds] rest]; simpl value.
  - u64_lia.
  - cbn [fst] in Hall. apply decimal_value_nonneg in Hall.
    destruct (Z.gtb_spec (decimal_value (d :: ds)) U64.max) as [Hov | Hfit];
      simpl value.
    + u64_lia.
    + destruct negative; [apply u64_wrap_range |].
      u64_lia.
Qed.

(** What [strtoull] makes of a token of the accepted shape. *)
Lemma strtoull_numeric (ws sign ds : cstring) :
  forallb isspace ws = true ->
  (sign = [] \/ sign = [PLUS] \/ sign = [MINUS]) ->
  ds <> [] -> forallb is_digit ds = true ->
  decimal_value ds <= U64.max ->
  strtoull (ws ++ sign ++ ds) =
  {| value := if streq sign [MINUS] then U64.neg (decimal_value ds)
              else decimal_value ds;
     endptr := [];
     erange := false |}.
Proof.
  intros Hws Hsign Hne Hds Hmax.
  destruct ds as [| d ds]; [congruence |].
  pose proof Hds as Hall. simpl in Hds. apply andb_true_iff in Hds as [Hd _].
  destruct (digit_not_sign d Hd) as [Hm Hp].
  pose proof (digit_not_space d Hd) as Hsp.
  assert (Hle : (decimal_value (d :: ds) >? U64.max) = false)
    by (rewrite Z.gtb_ltb; apply Z.ltb_ge; exact Hmax).
  unfold strtoull. rewrite skip_spaces_app by assumption.
  destruct Hsign as [-> | [-> | ->]]; simpl app; simpl skip_spaces.
  - rewrite Hsp, Hm, Hp. cbv beta iota zeta.
    rewrite (span_digits_all _ Hall), Hle. reflexivity.
  - cbv beta iota zeta. change (Ascii.eqb PLUS MINUS) with false.
    change (Ascii.eqb PLUS PLUS) with true. cbv beta iota zeta.
    rewrite (span_digits_all _ Hall), Hle. reflexivity.
  - cbv beta iota zeta. change (Ascii.eqb MINUS MINUS) with true.
    cbv beta iota zeta.
    rewrite (span_digits_all _ Hall), Hle. reflexivity.
Qed.

(** The loop's test accepts exactly the tokens of that shape. *)
Lemma token_ok_numeric (tok : cstring) :
  tok <> [] -> (token_ok tok = true <-> numeric_token tok).
Proof.
  intros Hne. split.
  - unfold token_ok, strtoull.
    destruct (skip_spaces_split tok) as (ws & Etok & Hws).
    set (s := skip_spaces tok) in *.
    assert (Hsign : exists sign s1,
               s = sign ++ s1 /\
               (sign = [] \/ sign = [PLUS] \/ sign = [MINUS]) /\
               match s with
               | c :: r =>
                   if Ascii.eqb c MINUS then (true, r)
                   else if Ascii.eqb c PLUS then (false, r) else (false, s)
               | [] => (false, s)
               end = (streq sign [MINUS], s1)).
    { destruct s as [| c r]; [exists [], []; auto |].
      destruct (Ascii.eqb_spec c MINUS) as [-> | Hm].
      - exists [MINUS], r. auto.
      - destruct (Ascii.eqb_spec c PLUS) as [-> | Hp].
        + exists [PLUS], r. auto.
        + exists [], (c :: r). auto. }
    destruct Hsign as (sign & s1 & Es & Hsign & ->).
    destruct (span_digits_split s1) as [Es1 Hds].
    destruct (span_digits s1) as [ds rest]. simpl in Es1, Hds.
    destruct ds as [| d ds].
    + simpl. rewrite streq_nil. intros E. congruence.
    + destruct (decimal_value (d :: ds) >? U64.max) eqn:Hov;
        simpl; [discriminate |].
      rewrite streq_nil. intros ->.
      exists ws, sign, (d :: ds). rewrite app_nil_r in Es1.
      repeat split; try assumption; try discriminate.
      * now rewrite Etok, Es, Es1.
      * rewrite Z.gtb_ltb in Hov. now apply Z.ltb_ge.
  - intros (ws & sign & ds & -> & Hws & Hsign & Hds & Hall & Hmax).
    unfold token_ok. now rewrite strtoull_numeric.
Qed.

(* ----------------------------------------------------------------- *)
(** ** The conversion loop and the parser *)

Lemma convert_tokens_tokenize (room : nat) (s : cstring) (values : list Z) :
  convert_tokens room (strtok_r s) values =
  if forallb token_ok (firstn room (tokenize s))
  then Some (values ++ map converted (firstn room (tokenize s)))
  else None.
Proof.
  revert s values. induction room as [| room IH]; intros s values.
  - simpl. rewrite app_nil_r. now destruct (strtok_r s) as [[] |].
  - rewrite (tokenize_strtok_r s).
    destruct (strtok_r s) as [[tok saveptr] |]; simpl;
      [| now rewrite app_nil_r].
    unfold token_ok at 1.
    destruct (erange (strtoull tok)); simpl; [reflexivity |].
    destruct (streq (endptr (strtoull tok)) []); simpl; [| reflexivity].
    rewrite IH. destruct (forallb token_ok _); [| reflexivity].
    now rewrite <- app_assoc.
Qed.

Lemma parse_interface_line_eq (line interface_ : cstring) (stats : net_stats_t) :
  parse_interface_line line interface_ stats =
  match split_label line with
  | None => (false, stats)
  | Some (iface_name, body) =>
      if streq iface_name interface_
         && forallb token_ok (firstn 16 (tokenize body))
         && (16 <=? List.length (tokenize body))%nat
      then (true,
            parsed_stats interface_
              (map converted (firstn 16 (tokenize body))) stats)
      else (false, stats)
  end.
Proof.
  unfold parse_interface_line.
  destruct (split_label line) as [[iface_name body] |]; [| reflexivity].
  destruct (streq iface_name interface_); cbn [negb andb]; [| reflexivity].
  rewrite convert_tokens_tokenize. cbn [app].
  destruct (forallb token_ok _); cbn [andb]; [| reflexivity].
  rewrite length_map, length_firstn.
  destruct (Nat.leb_spec 16 (List.length (tokenize body))) as [Hle | Hlt].
  - rewrite Nat.min_l by assumption. reflexivity.
  - rewrite Nat.min_r by lia.
    destruct (Nat.ltb_spec (List.length (tokenize body)) 16); [reflexivity | lia].
Qed.

(** The counters of a parsed snapshot are unsigned 64-bit values. *)
Lemma parsed_counters_in_range (line interface_ : cstring)
    (stats : net_stats_t) :
  fst (parse_interface_line line interface_ stats) = true ->
  Forall U64.in_range (counters (snd (parse_interface_line line interface_ stats))).
Proof.
  rewrite parse_interface_line_eq.
  destruct (split_label line) as [[iface_name body] |]; [| discriminate].
  destruct (_ && _ && _); [intros _ | discriminate].
  assert (H : forall i toks, U64.in_range (nth i (map converted toks) 0)).
  { intros i toks. revert i.
    induction toks as [| tok toks IH]; intros [| i]; simpl;
      try apply IH; try apply strtoull_value_in_range;
      u64_lia. }
  unfold counters, parsed_stats. simpl. repeat (constructor; [apply H |]).
  constructor.
Qed.

Lemma Forall_firstn_of {A : Type} (P : A -> Prop) (n : nat) (l : list A) :
  Forall P l -> Forall P (firstn n l).
Proof.
  intros H. revert n.
  induction H as [| x l Hx _ IH]; intros [| n]; simpl; auto.
Qed.

Lemma forallb_token_ok (toks : list cstring) :
  Forall (fun tok => tok <> []) toks ->
  forallb token_ok toks = true <-> Forall numeric_token toks.
Proof.
  induction 1 as [| tok toks Hne _ IH]; simpl.
  - split; auto.
  - rewrite andb_true_iff, IH, (token_ok_numeric tok Hne).
    split; [intros []; now constructor | now inversion 1].
Qed.

Lemma streq_refl (a : cstring) : streq a a = true.
Proof. now apply streq_true_iff. Qed.

Lemma parse_succeeds_iff_core (line interface_ body : cstring)
    (stats : net_stats_t) :
  split_label line = Some (interface_, body) ->
  fst (parse_interface_line line interface_ stats) = true <->
  (16 <= List.length (tokenize body))%nat /\
  Forall numeric_token (firstn 16 (tokenize body)).
Proof.
  intros Hlabel.
  rewrite parse_interface_line_eq, Hlabel, streq_refl. cbn [andb].
  rewrite <- (forallb_token_ok (firstn 16 (tokenize body)))
    by apply Forall_firstn_of, tokenize_nonempty.
  rewrite <- Nat.leb_le.
  destruct (forallb token_ok _), (16 <=? _)%nat; simpl;
    intuition congruence.
Qed.

(** C1, as stated, fails: a row with a matching label and 17 numeric
    tokens behind the colon is parsed with success, the 17th token
    never being looked at. *)
Lemma parse_17_tokens_counterexample :
  let line :=
    list_ascii_of_string "  eth0: 1 2 3 4 5 6 7 8 9 10 11 12 13 14 15 16 17" in
  let body :=
    list_ascii_of_string " 1 2 3 4 5 6 7 8 9 10 11 12 13 14 15 16 17" in
  split_label line = Some (list_ascii_of_string "eth0", body) /\
  List.length (tokenize body) = 17%nat /\
  forallb (forallb is_digit) (tokenize body) = true /\
  fst (parse_interface_line line (list_ascii_of_string "eth0") zero_stats)
  = true.
Proof. repeat split. Qed.

(** C1 (amended): for a row whose label matches the requested
    interface, parsing succeeds if and only if the text behind the colon
    has at least 16 tokens and each of the first 16 is one that
    [strtoull] converts in full (optional sign, decimal digits,
    magnitude at most [2^64 - 1]); tokens behind the 16th are ignored.
    A body of 15 tokens fails; a body of 17 tokens succeeds when its
    first 16 are numeric. *)
Theorem parse_succeeds_iff (line interface_ body : cstring)
    (stats : net_stats_t) :
  split_label line = Some (interface_, body) ->
  (fst (parse_interface_line line interface_ stats) = true <->
   (16 <= List.length (tokenize body))%nat /\
   Forall numeric_token (firstn 16 (tokenize body))) /\
  (List.length (tokenize body) = 15%nat ->
   fst (parse_interface_line line interface_ stats) = false) /\
  (List.length (tokenize body) = 17%nat ->
   Forall numeric_token (firstn 16 (tokenize body)) ->
   fst (parse_interface_line line interface_ stats) = true).
Proof.
  intros Hlabel.
  pose proof (parse_succeeds_iff_core line interface_ body stats Hlabel)
    as Hiff.
  split; [exact Hiff | split].
  - intros H15. apply not_true_is_false. rewrite Hiff. lia.
  - intros H17 Hnum. apply Hiff. split; [lia | assumption].
Qed.

Lemma parse_succeeds_iff_witness :
  fst (parse_interface_line
         (list_ascii_of_string "eth0: 1 2 3 4 5 6 7 8 9 10 11 12 13 14 15")
         (list_ascii_of_string "eth0") zero_stats) = false.
Proof.
  refine (proj1 (proj2 (parse_succeeds_iff
    (list_ascii_of_string "eth0: 1 2 3 4 5 6 7 8 9 10 11 12 13 14 15")
    (list_ascii_of_string "eth0")
    (list_ascii_of_string " 1 2 3 4 5 6 7 8 9 10 11 12 13 14 15")
    zero_stats _)) _); reflexivity.
Defined.

(* ----------------------------------------------------------------- *)
(** ** Failure leaves the snapshot alone *)

Lemma parse_failure_keeps (line interface_ : cstring) (stats : net_stats_t) :
  fst (parse_interface_line line interface_ stats) = false ->
  parse_interface_line line interface_ stats = (false, stats).
Proof.
  rewrite parse_interface_line_eq.
  destruct (split_label line) as [[iface_name body] |]; [| reflexivity].
  destruct (_ && _ && _); [discriminate | reflexivity].
Qed.

(** Whether a row parses does not depend on what the snapshot held. *)
Lemma parse_result_independent (line interface_ : cstring)
    (s1 s2 : net_stats_t) :
  fst (parse_interface_line line interface_ s1)
  = fst (parse_interface_line line interface_ s2).
Proof.
  rewrite !parse_interface_line_eq.
  destruct (split_label line) as [[iface_name body] |]; [| reflexivity].
  now destruct (_ && _ && _).
Qed.

Lemma parse_label_mismatch (line interface_ iface_name body : cstring)
    (stats : net_stats_t) :
  split_label line = Some (iface_name, body) ->
  iface_name <> interface_ ->
  parse_interface_line line interface_ stats = (false, stats).
Proof.
  intros Hsplit Hneq. rewrite parse_interface_line_eq, Hsplit.
  destruct (streq iface_name interface_) eqn:E; [| reflexivity].
  apply streq_true_iff in E. contradiction.
Qed.

Lemma scan_lines_skip (line : list ascii) (rest : list (list ascii))
    (line_num : Z) (interface_ : cstring) (clock : option timespec)
    (stats : net_stats_t) :
  2 <= line_num ->
  fst (parse_interface_line (c_str line) interface_ stats) = false ->
  scan_lines (line :: rest) line_num interface_ clock stats
  = scan_lines rest (line_num + 1) interface_ clock stats.
Proof.
  intros Hnum Hfail. simpl.
  destruct (Z.leb_spec (line_num + 1) 2); [lia |].
  now rewrite (parse_failure_keeps _ _ _ Hfail).
Qed.

Lemma scan_lines_hit (line : list ascii) (rest : list (list ascii))
    (line_num : Z) (interface_ : cstring) (clock : option timespec)
    (stats : net_stats_t) :
  2 <= line_num ->
  fst (parse_interface_line (c_str line) interface_ stats) = true ->
  scan_lines (line :: rest) line_num interface_ clock stats
  = (true,
     set_timestamp
       match clock with
       | Some now => now
       | None => {| tv_sec := 0; tv_nsec := 0 |}
       end
       (snd (parse_interface_line (c_str line) interface_ stats))).
Proof.
  intros Hnum Hok. simpl.
  destruct (Z.leb_spec (line_num + 1) 2); [lia |].
  destruct (parse_interface_line (c_str line) interface_ stats) as [[] s'];
    [| discriminate].
  now destruct clock.
Qed.

Lemma scan_lines_failure_keeps (lines : list (list ascii)) (line_num : Z)
    (interface_ : cstring) (clock : option timespec) (stats : net_stats_t) :
  fst (scan_lines lines line_num interface_ clock stats) = false ->
  scan_lines lines line_num interface_ clock stats = (false, stats).
Proof.
  revert line_num stats.
  induction lines as [| line rest IH]; intros line_num stats; [reflexivity |].
  simpl. destruct (line_num + 1 <=? 2); [apply IH |].
  destruct (parse_interface_line (c_str line) interface_ stats)
    as [[] stats'] eqn:E; [discriminate |].
  rewrite (parse_failure_keeps (c_str line) interface_ stats) in E
    by now rewrite E.
  injection E as <-. apply IH.
Qed.

Lemma read_failure_keeps (src : source) (interface_ : cstring)
    (stats : net_stats_t) :
  fst (read_net_stats src interface_ stats) = false ->
  read_net_stats src interface_ stats = (false, stats).
Proof.
  unfold read_net_stats. destruct (proc_net_dev src); [| reflexivity].
  apply scan_lines_failure_keeps.
Qed.

Lemma scan_lines_result_independent (lines : list (list ascii)) (line_num : Z)
    (interface_ : cstring) (clock : option timespec) (s1 s2 : net_stats_t) :
  fst (scan_lines lines line_num interface_ clock s1)
  = fst (scan_lines lines line_num interface_ clock s2).
Proof.
  revert line_num s1 s2.
  induction lines as [| line rest IH]; intros line_num s1 s2; [reflexivity |].
  simpl. destruct (line_num + 1 <=? 2); [apply IH |].
  pose proof (parse_result_independent (c_str line) interface_ s1 s2) as E.
  destruct (parse_interface_line (c_str line) interface_ s1) as [[] s1'],
           (parse_interface_line (c_str line) interface_ s2) as [[] s2'];
    simpl in E; try discriminate; [reflexivity | apply IH].
Qed.

Lemma read_result_independent (src : source) (interface_ : cstring)
    (s1 s2 : net_stats_t) :
  fst (read_net_stats src interface_ s1)
  = fst (read_net_stats src interface_ s2).
Proof.
  unfold read_net_stats. destruct (proc_net_dev src); [| reflexivity].
  apply scan_lines_result_independent.
Qed.

(** C6: reading is all-or-nothing. When [parse_interface_line] or
    [read_net_stats] fails (source not opened, no matching row, matching
    row malformed) the snapshot handed in is left as it was, with no
    field written; and a tick of the poll loop whose read fails leaves
    the current and the previous snapshot unchanged, counts nothing,
    warns and goes to sleep. *)
Theorem read_failure_all_or_nothing :
  (forall line interface_ stats,
      fst (parse_interface_line line interface_ stats) = false ->
      snd (parse_interface_line line interface_ stats) = stats) /\
  (forall src interface_ stats,
      fst (read_net_stats src interface_ stats) = false ->
      snd (read_net_stats src interface_ stats) = stats) /\
  (forall cfg env st,
      fst (read_net_stats (tick_source env) (cfg_interface cfg)
             (current_stats st)) = false ->
      current_stats (tick cfg env st) = current_stats st /\
      previous_stats (tick cfg env st) = previous_stats st /\
      iteration (tick cfg env st) = iteration st /\
      exists slept,
        trace (tick cfg env st)
        = trace st ++ [EvRead false; EvWarning; EvSleep (interval cfg) slept]).
Proof.
  split; [| split].
  - intros line interface_ stats H. now rewrite parse_failure_keeps.
  - intros src interface_ stats H. now rewrite read_failure_keeps.
  - intros cfg env st H. unfold tick.
    rewrite (read_failure_keeps _ _ _ H). cbn [negb].
    destruct (sleep _ _ _) as [running' slept]. simpl.
    repeat split. now exists slept.
Qed.

Lemma read_failure_all_or_nothing_witness :
  snd (read_net_stats
         {| proc_net_dev :=
              Some (text_lines
                      (proc_header ++
                       ["  eth0: 1 2 3 four 5 6 7 8 9 10 11 12 13 14 15 16"
                       ]%string));
            clock_monotonic := None |}
         (list_ascii_of_string "eth0") zero_stats) = zero_stats.
Proof.
  apply (proj1 (proj2 read_failure_all_or_nothing)). reflexivity.
Defined.

(* ----------------------------------------------------------------- *)
(** ** Scanning the counter source *)

(** C2, as stated, fails: with a first [eth0] row whose body is
    malformed and a second [eth0] row that is well formed, the read
    reports no error; it skips the first row and returns the counters of
    the second. *)
Lemma malformed_row_counterexample :
  let text :=
    text_lines
      (proc_header ++
       ["  eth0: 7 oops 0 0 0 0 0 0 0 0 0 0 0 0 0 0";
        "  eth0: 1 2 3 4 5 6 7 8 9 10 11 12 13 14 15 16"]%string) in
  let result :=
    read_net_stats {| proc_net_dev := Some text; clock_monotonic := None |}
      (list_ascii_of_string "eth0") zero_stats in
  fst result = true /\
  counters (snd result) = [1; 2; 3; 4; 9; 10; 11; 12].
Proof. split; reflexivity. Qed.

(** C2 (amended): behind the two header lines, a row whose label
    matches the requested interface but whose body is malformed (fewer
    than 16 tokens, or a token among the first 16 that is not numeric)
    makes [parse_interface_line] return false with the snapshot
    untouched, exactly as a row with another label does whatever its
    body holds, and [read_net_stats] goes on with the rows that follow:
    the first row that matches and parses is the one returned. No error
    distinct from a row that does not match is reported. *)
Theorem malformed_row_is_skipped (bad : list ascii) (body : cstring)
    (rest : list (list ascii)) (line_num : Z) (interface_ : cstring)
    (clock : option timespec) (stats : net_stats_t) :
  2 <= line_num ->
  split_label (c_str bad) = Some (interface_, body) ->
  ~ ((16 <= List.length (tokenize body))%nat /\
     Forall numeric_token (firstn 16 (tokenize body))) ->
  parse_interface_line (c_str bad) interface_ stats = (false, stats) /\
  scan_lines (bad :: rest) line_num interface_ clock stats
  = scan_lines rest (line_num + 1) interface_ clock stats /\
  (forall other label other_body,
      split_label (c_str other) = Some (label, other_body) ->
      label <> interface_ ->
      parse_interface_line (c_str other) interface_ stats = (false, stats) /\
      scan_lines (other :: rest) line_num interface_ clock stats
      = scan_lines rest (line_num + 1) interface_ clock stats) /\
  (forall good,
      fst (parse_interface_line (c_str good) interface_ stats) = true ->
      fst (scan_lines (bad :: good :: rest) line_num interface_ clock stats)
      = true /\
      counters
        (snd (scan_lines (bad :: good :: rest) line_num interface_ clock stats))
      = counters (snd (parse_interface_line (c_str good) interface_ stats))).
Proof.
  intros Hnum Hlabel Hbad.
  assert (Hfail :
    fst (parse_interface_line (c_str bad) interface_ stats) = false).
  { apply not_true_is_false. intros Hok. apply Hbad.
    now apply (parse_succeeds_iff_core (c_str bad) interface_ body stats). }
  split; [now apply parse_failure_keeps |].
  split; [now apply scan_lines_skip |].
  split.
  - intros other label other_body Hsplit Hneq.
    pose proof (parse_label_mismatch _ _ _ _ stats Hsplit Hneq) as E.
    split; [exact E |]. apply scan_lines_skip; [assumption | now rewrite E].
  - intros good Hgood.
    rewrite scan_lines_skip, scan_lines_hit by (assumption || lia).
    split; [reflexivity |]. now destruct clock.
Qed.

(* ----------------------------------------------------------------- *)
(** ** Decimal text *)

Lemma code_ascii_of_nat (k : nat) :
  (k < 256)%nat -> code (ascii_of_nat k) = Z.of_nat k.
Proof. intros H. unfold code. now rewrite nat_ascii_embedding. Qed.

Lemma decimal_value_snoc (ds : cstring) (c : ascii) :
  decimal_value (ds ++ [c]) = decimal_value ds * 10 + digit_value c.
Proof. unfold decimal_value. now rewrite fold_left_app. Qed.

Lemma forallb_snoc {A : Type} (f : A -> bool) (l : list A) (x : A) :
  forallb f (l ++ [x]) = forallb f l && f x.
Proof. rewrite forallb_app. simpl. now rewrite andb_true_r. Qed.

(** [decimal_digits] puts in front of [acc] the digits of [n]. *)
Lemma decimal_digits_spec (fuel : nat) (n : Z) (acc : cstring) :
  (1 <= fuel)%nat -> 0 <= n < 10 ^ Z.of_nat fuel ->
  exists ds,
    decimal_digits fuel n acc = ds ++ acc /\
    ds <> [] /\ forallb is_digit ds = true /\ decimal_value ds = n.
Proof.
  revert n acc. induction fuel as [| fuel IH]; intros n acc Hfuel Hn; [lia |].
  set (d := ascii_of_nat (Z.to_nat (48 + n mod 10))).
  assert (Hmod : 0 <= n mod 10 < 10) by (apply Z.mod_pos_bound; lia).
  assert (Hcode : code d = 48 + n mod 10).
  { unfold d. rewrite code_ascii_of_nat by lia. lia. }
  assert (Hdig : is_digit d = true) by (unfold is_digit; lia).
  assert (Hval : digit_value d = n mod 10) by (unfold digit_value; lia).
  change (decimal_digits (S fuel) n acc)
    with (if n / 10 =? 0 then d :: acc
          else decimal_digits fuel (n / 10) (d :: acc)).
  destruct (Z.eqb_spec (n / 10) 0) as [Hq | Hq].
  - exists [d]. repeat split.
    + discriminate.
    + simpl. now rewrite Hdig.
    + unfold decimal_value. simpl. rewrite Hval.
      pose proof (Z.div_mod n 10). lia.
  - assert (Hq' : 0 < n / 10) by (pose proof (Z.div_pos n 10); lia).
    assert (Hten : 10 <= n) by (pose proof (Z.div_mod n 10); lia).
    assert (Hbound : n / 10 < 10 ^ Z.of_nat fuel).
    { apply Z.div_lt_upper_bound; [lia |].
      replace (Z.of_nat (S fuel)) with (Z.succ (Z.of_nat fuel)) in Hn by lia.
      rewrite Z.pow_succ_r in Hn by lia. lia. }
    assert (Hf : (1 <= fuel)%nat).
    { destruct fuel; [simpl in Hbound; lia | lia]. }
    destruct (IH (n / 10) (d :: acc) Hf) as (ds & E & Hne & Hall & Hv); [lia |].
    exists (ds ++ [d]). repeat split.
    + rewrite E, <- app_assoc. reflexivity.
    + destruct ds; discriminate.
    + now rewrite forallb_snoc, Hall, Hdig.
    + rewrite decimal_value_snoc, Hv, Hval.
      pose proof (Z.div_mod n 10). lia.
Qed.

Lemma fmt_llu_digits (n : Z) :
  U64.in_range n ->
  fmt_llu n <> [] /\ forallb is_digit (fmt_llu n) = true /\
  decimal_value (fmt_llu n) = n.
Proof.
  unfold U64.in_range, U64.modulus. intros Hn.
  destruct (decimal_digits_spec 20 n []) as (ds & E & H); [lia | simpl; lia |].
  unfold fmt_llu. rewrite E, app_nil_r. exact H.
Qed.

Lemma fmt_llu_digits_token (n : Z) : U64.in_range n -> digits_token (fmt_llu n).
Proof.
  intros Hn. destruct (fmt_llu_digits n Hn) as (Hne & Hall & Hv).
  repeat split; try assumption.
  rewrite Hv. u64_lia.
Qed.

Lemma strtoull_digits_token (tok : cstring) :
  digits_token tok ->
  strtoull tok = {| value := decimal_value tok; endptr := []; erange := false |}.
Proof.
  intros (Hne & Hall & Hmax).
  exact (strtoull_numeric [] [] tok eq_refl (or_introl eq_refl) Hne Hall Hmax).
Qed.

Lemma digits_tokens_convert (toks : list cstring) :
  Forall digits_token toks ->
  forallb token_ok toks = true /\
  map converted toks = map decimal_value toks.
Proof.
  induction 1 as [| tok toks Htok _ [IHok IHmap]]; [now split |].
  simpl. unfold token_ok at 1, converted at 1.
  rewrite (strtoull_digits_token tok Htok). simpl.
  rewrite IHok, IHmap. now split.
Qed.

Lemma used_columns_map {A B : Type} (f : A -> B) (a : A) (b : B)
    (row : list A) :
  (12 <= List.length row)%nat ->
  map f (used_columns a row) = used_columns b (map f row).
Proof.
  intros Hlen.
  assert (E : forall i, (i < 12)%nat -> f (nth i row a) = nth i (map f row) b).
  { intros i Hi.
    rewrite (nth_indep (map f row) b (f a)) by (rewrite length_map; lia).
    now rewrite map_nth. }
  unfold used_columns. simpl. now rewrite !E by lia.
Qed.

(** C9: round trip. For a row whose label matches and whose body is
    made of exactly 16 tokens of decimal digits, each of a value below
    [2^64], parsing succeeds and the eight counters of the snapshot are
    the values of the tokens 0 to 3 and 8 to 11, whole; printing a
    counter in decimal and reading it back gives the counter again; and
    when the tokens are the decimal renderings of 16 numbers, printing
    the eight counters gives back the text of those eight tokens. *)
Theorem parse_round_trip (line interface_ body : cstring)
    (stats : net_stats_t) :
  split_label line = Some (interface_, body) ->
  List.length (tokenize body) = 16%nat ->
  Forall digits_token (tokenize body) ->
  let result := parse_interface_line line interface_ stats in
  fst result = true /\
  counters (snd result) = used_columns 0 (map decimal_value (tokenize body)) /\
  Forall (fun c => U64.in_range c /\ decimal_value (fmt_llu c) = c)
    (counters (snd result)) /\
  (forall numbers,
      Forall U64.in_range numbers ->
      tokenize body = map fmt_llu numbers ->
      counters (snd result) = used_columns 0 numbers /\
      map fmt_llu (counters (snd result)) = used_columns [] (tokenize body)).
Proof.
  intros Hlabel Hlen Htoks result.
  destruct (digits_tokens_convert _ Htoks) as [Hok Hconv].
  assert (Hresult :
    result = (true, parsed_stats interface_
                      (map decimal_value (tokenize body)) stats)).
  { unfold result.
    rewrite parse_interface_line_eq, Hlabel, streq_refl.
    rewrite <- Hlen, firstn_all, Hok, Hconv, Nat.leb_refl. reflexivity. }
  rewrite Hresult. cbn [fst snd].
  assert (Hcounters :
    counters (parsed_stats interface_ (map decimal_value (tokenize body)) stats)
    = used_columns 0 (map decimal_value (tokenize body))) by reflexivity.
  assert (Hrange : Forall U64.in_range (map decimal_value (tokenize body))).
  { apply Forall_map. revert Htoks. apply Forall_impl.
    intros tok (_ & Hall & Hmax). apply decimal_value_nonneg in Hall.
    u64_lia. }
  assert (Hin : forall i, (i < 16)%nat ->
              U64.in_range (nth i (map decimal_value (tokenize body)) 0)).
  { intros i Hi. rewrite Forall_forall in Hrange. apply Hrange, nth_In.
    rewrite length_map. lia. }
  split; [reflexivity |]. split; [exact Hcounters |]. split.
  - rewrite Hcounters. unfold used_columns.
    repeat (constructor;
            [split; [| apply fmt_llu_digits]; apply Hin; lia |]).
    constructor.
  - intros numbers Hnumbers Hrender. rewrite Hcounters.
    assert (Hnum : map decimal_value (tokenize body) = numbers).
    { rewrite Hrender, map_map. rewrite <- (map_id numbers) at 2.
      apply map_ext_Forall. revert Hnumbers. apply Forall_impl.
      intros n Hn. now apply fmt_llu_digits. }
    rewrite Hnum. split; [reflexivity |].
    rewrite Hrender. apply used_columns_map.
    rewrite <- (length_map fmt_llu), <- Hrender, Hlen. lia.
Qed.

Lemma parse_round_trip_witness :
  counters
    (snd (parse_interface_line
            (list_ascii_of_string
               "  eth0: 1000 20 1 2 0 0 0 0 3000 40 5 6 0 0 0 0")
            (list_ascii_of_string "eth0") zero_stats))
  = [1000; 20; 1; 2; 3000; 40; 5; 6].
Proof.
  pose (line := list_ascii_of_string
                  "  eth0: 1000 20 1 2 0 0 0 0 3000 40 5 6 0 0 0 0").
  pose (body := list_ascii_of_string
                  " 1000 20 1 2 0 0 0 0 3000 40 5 6 0 0 0 0").
  assert (Hlabel : split_label line
                   = Some (list_ascii_of_string "eth0", body))
    by (vm_compute; reflexivity).
  assert (Hlen : List.length (tokenize body) = 16%nat)
    by (vm_compute; reflexivity).
  assert (Htoks : Forall digits_token (tokenize body)).
  { let toks := eval vm_compute in (tokenize body) in
    change (Forall digits_token toks).
    repeat (apply Forall_cons;
            [split; [discriminate
                    | split; [reflexivity | vm_compute; discriminate]] |]).
    apply Forall_nil. }
  pose proof (proj1 (proj2
    (parse_round_trip line (list_ascii_of_string "eth0") body zero_stats
       Hlabel Hlen Htoks))) as H.
  vm_compute in H. vm_compute. exact H.
Defined.

Lemma malformed_row_is_skipped_witness :
  scan_lines
    [list_ascii_of_string "  eth0: 7 oops";
     list_ascii_of_string "  eth0: 1 2 3 4 5 6 7 8 9 10 11 12 13 14 15 16"]
    2 (list_ascii_of_string "eth0") None zero_stats
  = scan_lines
      [list_ascii_of_string "  eth0: 1 2 3 4 5 6 7 8 9 10 11 12 13 14 15 16"]
      3 (list_ascii_of_string "eth0") None zero_stats.
Proof.
  refine (proj1 (proj2 (malformed_row_is_skipped
    (list_ascii_of_string "  eth0: 7 oops")
    (list_ascii_of_string " 7 oops")
    [list_ascii_of_string "  eth0: 1 2 3 4 5 6 7 8 9 10 11 12 13 14 15 16"]
    2 (list_ascii_of_string "eth0") None zero_stats _ eq_refl _))).
  - lia.
  - intros [H _]. simpl in H. lia.
Defined.

(* ----------------------------------------------------------------- *)
(** ** The poll loop *)

Lemma reads_app (t u : list event) : reads (t ++ u) = (reads t + reads u)%nat.
Proof. unfold reads. now rewrite filter_app, length_app. Qed.

Lemma successes_app (t u : list event) :
  successes (t ++ u) = (successes t + successes u)%nat.
Proof. unfold successes. now rewrite filter_app, length_app. Qed.

Lemma read_ok_eq (cfg : config) (env : tick_env) (stats : net_stats_t) :
  fst (read_net_stats (tick_source env) (cfg_interface cfg) stats)
  = read_ok cfg env.
Proof. apply read_result_independent. Qed.

(** A tick whose read fails. *)
Lemma tick_read_failed (cfg : config) (env : tick_env) (st : loop_state) :
  read_ok cfg env = false ->
  tick cfg env st =
  let sig := tick_signal env in
  let running := deliver at_sampling sig (keep_running st) in
  let result :=
    sleep (deliver at_before_sleep sig running) (interval cfg) sig in
  {| keep_running := fst result;
     current_stats := current_stats st;
     previous_stats := previous_stats st;
     iteration := iteration st;
     lines_since_header := lines_since_header st;
     trace := trace st ++ [EvRead false; EvWarning;
                           EvSleep (interval cfg) (snd result)] |}.
Proof.
  intros Hread. rewrite <- (read_ok_eq cfg env (current_stats st)) in Hread.
  unfold tick. rewrite (read_failure_keeps _ _ _ Hread). cbn [negb].
  cbv zeta. now destruct (sleep _ _ _).
Qed.

(** A tick whose read succeeds: the events behind the read and the
    print are the header, when due, and the sleep, when the guard
    holds. *)
Lemma tick_read_succeeded (cfg : config) (env : tick_env) (st : loop_state) :
  read_ok cfg env = true ->
  exists current tail,
    current
    = snd (read_net_stats (tick_source env) (cfg_interface cfg)
             (current_stats st)) /\
    let sig := tick_signal env in
    let running := deliver at_sampling sig (keep_running st) in
    let previous := previous_stats st in
    let printed :=
      EvPrintStats current (if valid previous then Some previous else None)
        (if valid previous
         then timespec_diff (timestamp previous) (timestamp current)
         else 0.0%float) in
    let result :=
      sleep (deliver at_before_sleep sig running) (interval cfg) sig in
    trace (tick cfg env st) = trace st ++ EvRead true :: printed :: tail /\
    reads tail = 0%nat /\ successes tail = 0%nat /\
    current_stats (tick cfg env st) = current /\
    previous_stats (tick cfg env st) = current /\
    iteration (tick cfg env st) = iteration st + 1 /\
    (if loop_guard cfg running (iteration st + 1)
     then keep_running (tick cfg env st) = fst result /\
          exists header,
            tail = header ++ [EvSleep (interval cfg) (snd result)]
     else keep_running (tick cfg env st) = running /\
          forall requested slept, ~ In (EvSleep requested slept) tail).
Proof.
  intros Hread. rewrite <- (read_ok_eq cfg env (current_stats st)) in Hread.
  unfold tick.
  destruct (read_net_stats _ _ _) as [ok current]. simpl in Hread. subst ok.
  cbn [negb snd]. cbv zeta.
  exists current.
  destruct (HEADER_INTERVAL <=? lines_since_header st + 1);
    destruct (loop_guard cfg _ _); try destruct (sleep _ _ _) as [r slept];
    cbn [trace current_stats previous_stats iteration keep_running fst snd].
  - exists ([EvPrintHeader] ++ [EvSleep (interval cfg) slept]).
    repeat (split; [reflexivity |]).
    now exists [EvPrintHeader].
  - exists [EvPrintHeader].
    repeat (split; [reflexivity |]).
    intros a b [H | []]. discriminate.
  - exists ([] ++ [EvSleep (interval cfg) slept]).
    repeat (split; [reflexivity |]).
    now exists [].
  - exists [].
    repeat (split; [reflexivity |]).
    intros a b [].
Qed.

Lemma main_loop_guard_false (cfg : config) (script : list tick_env)
    (st : loop_state) :
  loop_guard cfg (keep_running st) (iteration st) = false ->
  main_loop cfg script st = Stopped st.
Proof. intros H. destruct script; simpl; now rewrite H. Qed.

Lemma main_loop_guard_true (cfg : config) (env : tick_env)
    (script : list tick_env) (st : loop_state) :
  loop_guard cfg (keep_running st) (iteration st) = true ->
  main_loop cfg (env :: script) st = main_loop cfg script (tick cfg env st).
Proof. intros H. simpl. now rewrite H. Qed.

Lemma loop_guard_bounded (cfg : config) (running : bool) (iteration_ : Z) :
  0 < max_iterations cfg ->
  loop_guard cfg running iteration_
  = running && (iteration_ <? max_iterations cfg).
Proof.
  intros Hmax. unfold loop_guard.
  destruct (Z.ltb_spec (max_iterations cfg) 0); [lia | reflexivity].
Qed.

(** A quiet tick of a running loop: one more read, and one more
    iteration exactly when the read succeeds. *)
Lemma tick_quiet (cfg : config) (env : tick_env) (st : loop_state) :
  quiet env -> keep_running st = true ->
  keep_running (tick cfg env st) = true /\
  reads (trace (tick cfg env st)) = S (reads (trace st)) /\
  if read_ok cfg env
  then iteration (tick cfg env st) = iteration st + 1 /\
       successes (trace (tick cfg env st)) = S (successes (trace st))
  else iteration (tick cfg env st) = iteration st /\
       successes (trace (tick cfg env st)) = successes (trace st).
Proof.
  unfold quiet. intros Hquiet Hrun.
  destruct (read_ok cfg env) eqn:Hread.
  - destruct (tick_read_succeeded cfg env st Hread)
      as (current & tail & _ & Htrace & Hreads & Hsucc & _ & _ & Hiter & Hkeep).
    cbv zeta in Htrace, Hkeep. rewrite Hquiet, Hrun in Hkeep.
    cbn [deliver sleep fst snd] in Hkeep.
    rewrite Htrace, reads_app, successes_app.
    change (reads (EvRead true :: ?p :: tail)) with (S (reads tail)).
    change (successes (EvRead true :: ?p :: tail)) with (S (successes tail)).
    rewrite Hreads, Hsucc, !Nat.add_1_r.
    repeat split; try assumption.
    destruct (loop_guard cfg _ _); now destruct Hkeep.
  - rewrite (tick_read_failed cfg env st Hread), Hquiet, Hrun.
    cbn [trace iteration keep_running]. rewrite reads_app, successes_app.
    cbn. rewrite Nat.add_1_r, Nat.add_0_r. repeat split.
Qed.

(** A run of quiet ticks from a running state with [needed] successful
    reads still to come. *)
Lemma main_loop_quiet (cfg : config) (script : list tick_env) :
  0 < max_iterations cfg -> Forall quiet script ->
  forall st needed,
    keep_running st = true ->
    iteration st + Z.of_nat needed = max_iterations cfg ->
    match ticks_until cfg needed script with
    | Some n =>
        exists st',
          main_loop cfg script st = Stopped st' /\
          reads (trace st') = (reads (trace st) + n)%nat /\
          successes (trace st') = (successes (trace st) + needed)%nat /\
          iteration st' = max_iterations cfg /\
          keep_running st' = true
    | None =>
        exists st',
          main_loop cfg script st = Running st' /\
          reads (trace st') = (reads (trace st) + List.length script)%nat
    end.
Proof.
  intros Hmax Hquiet.
  assert (Hdone : forall script st,
             keep_running st = true ->
             iteration st + Z.of_nat 0 = max_iterations cfg ->
             exists st',
               main_loop cfg script st = Stopped st' /\
               reads (trace st') = (reads (trace st) + 0)%nat /\
               successes (trace st') = (successes (trace st) + 0)%nat /\
               iteration st' = max_iterations cfg /\
               keep_running st' = true).
  { intros script' st Hrun Hiter. exists st.
    rewrite main_loop_guard_false, !Nat.add_0_r.
    - repeat split; [lia | assumption].
    - rewrite loop_guard_bounded, Hrun by assumption.
      destruct (Z.ltb_spec (iteration st) (max_iterations cfg)); [lia | easy]. }
  induction Hquiet as [| env script Henv _ IH]; intros st needed Hrun Hiter.
  - destruct needed as [| needed]; [now apply Hdone |].
    exists st. simpl. rewrite loop_guard_bounded, Hrun by assumption.
    destruct (Z.ltb_spec (iteration st) (max_iterations cfg)); [| lia].
    now rewrite Nat.add_0_r.
  - destruct needed as [| needed]; [now apply Hdone |].
    assert (Hguard : loop_guard cfg (keep_running st) (iteration st) = true).
    { rewrite loop_guard_bounded, Hrun by assumption.
      destruct (Z.ltb_spec (iteration st) (max_iterations cfg)); [easy | lia]. }
    rewrite main_loop_guard_true by assumption.
    destruct (tick_quiet cfg env st Henv Hrun) as (Hrun' & Hreads & Hstep).
    cbn [ticks_until].
    destruct (read_ok cfg env); destruct Hstep as [Hiter' Hsucc].
    + specialize (IH (tick cfg env st) needed Hrun' ltac:(lia)).
      destruct (ticks_until cfg needed script) as [n |]; cbn [option_map].
      * destruct IH as (st' & Hloop & Hr & Hs & Hi & Hk).
        exists st'. repeat split; try assumption; lia.
      * destruct IH as (st' & Hloop & Hr).
        exists st'. split; [assumption |]. cbn [List.length]. lia.
    + specialize (IH (tick cfg env st) (S needed) Hrun' ltac:(lia)).
      destruct (ticks_until cfg (S needed) script) as [n |]; cbn [option_map].
      * destruct IH as (st' & Hloop & Hr & Hs & Hi & Hk).
        exists st'. repeat split; try assumption; lia.
      * destruct IH as (st' & Hloop & Hr).
        exists st'. split; [assumption |]. cbn [List.length]. lia.
Qed.

Lemma ticks_until_all_ok (cfg : config) (script : list tick_env) (needed : nat) :
  forallb (read_ok cfg) script = true ->
  (needed <= List.length script)%nat ->
  ticks_until cfg needed script = Some needed.
Proof.
  revert needed. induction script as [| env script IH]; intros needed Hok Hlen.
  - destruct needed; [reflexivity | simpl in Hlen; lia].
  - destruct needed as [| needed]; [reflexivity |].
    simpl in Hok. apply andb_true_iff in Hok as [Henv Hok].
    simpl. rewrite Henv, IH; [reflexivity | assumption | simpl in Hlen; lia].
Qed.

Lemma find_app {A : Type} (f : A -> bool) (l l' : list A) :
  find f (l ++ l') =
  match find f l with Some x => Some x | None => find f l' end.
Proof.
  induction l as [| x l IH]; simpl; [reflexivity |]. now destruct (f x).
Qed.

Lemma tick_trace_extends (cfg : config) (env : tick_env) (st : loop_state) :
  exists events, trace (tick cfg env st) = trace st ++ events.
Proof.
  destruct (read_ok cfg env) eqn:Hread.
  - destruct (tick_read_succeeded cfg env st Hread)
      as (current & tail & _ & Htrace & _).
    eexists. exact Htrace.
  - rewrite (tick_read_failed cfg env st Hread). eexists. reflexivity.
Qed.

Lemma main_loop_trace_extends (cfg : config) (script : list tick_env)
    (st : loop_state) :
  exists events, trace (state_of (main_loop cfg script st)) = trace st ++ events.
Proof.
  revert st. induction script as [| env script IH]; intros st; simpl;
    destruct (loop_guard cfg (keep_running st) (iteration st));
    try (exists []; now rewrite app_nil_r).
  destruct (IH (tick cfg env st)) as (later & Hlater).
  destruct (tick_trace_extends cfg env st) as (now_ & Hnow).
  exists (now_ ++ later). now rewrite Hlater, Hnow, app_assoc.
Qed.

(** The first call of [print_stats] of a run that starts without a
    valid previous snapshot passes no previous snapshot. *)
Lemma main_loop_first_print (cfg : config) (script : list tick_env) :
  forall st e,
    find is_print (trace st) = None ->
    valid (previous_stats st) = false ->
    find is_print (trace (state_of (main_loop cfg script st))) = Some e ->
    exists current, e = EvPrintStats current None 0.0.
Proof.
  induction script as [| env script IH]; intros st e Hnone Hinvalid; simpl;
    destruct (loop_guard cfg (keep_running st) (iteration st)); simpl;
    try (rewrite Hnone; discriminate).
  destruct (read_ok cfg env) eqn:Hread.
  - destruct (tick_read_succeeded cfg env st Hread)
      as (current & tail & _ & Htrace & _).
    cbv zeta in Htrace. rewrite Hinvalid in Htrace.
    destruct (main_loop_trace_extends cfg script (tick cfg env st))
      as (later & ->).
    rewrite Htrace, !find_app, Hnone. simpl.
    intros E. injection E as <-. now exists current.
  - apply IH.
    + rewrite (tick_read_failed cfg env st Hread). cbn [trace].
      now rewrite find_app, Hnone.
    + now rewrite (tick_read_failed cfg env st Hread).
Qed.

(** C5: with no valid previous snapshot, [print_stats] leaves the marker
    ["-"] in the four delta and rate cells, whatever the elapsed time,
    and the marker holds no digit. The loop of [main] starts with an
    invalid previous snapshot; a tick that reads with success while the
    previous snapshot is invalid calls [print_stats] with the NULL
    pointer for it; and the first call of [print_stats] of every run of
    the loop is such a call, its line showing the marker in the four
    cells. *)
Theorem first_tick_unavailable :
  (forall fmt_f0 fmt_f1 now current previous elapsed,
      match previous with Some p => valid p = false | None => True end ->
      rates_unavailable
        (print_stats fmt_f0 fmt_f1 now current previous elapsed)) /\
  (forall cfg env st,
      valid (previous_stats st) = false ->
      read_ok cfg env = true ->
      exists current tail,
        trace (tick cfg env st)
        = trace st ++ EvRead true :: EvPrintStats current None 0.0 :: tail) /\
  (forall cfg script running e,
      find is_print
        (trace (state_of (main_loop cfg script (loop_entry running)))) = Some e ->
      (exists current, e = EvPrintStats current None 0.0) /\
      forall fmt_f0 fmt_f1 now,
      exists line,
        rendered fmt_f0 fmt_f1 now e = Some line /\ rates_unavailable line) /\
  (forall running, valid (previous_stats (loop_entry running)) = false) /\
  forallb is_digit DASH = false.
Proof.
  assert (Hdash : forall fmt_f0 fmt_f1 now current previous elapsed,
             match previous with Some p => valid p = false | None => True end ->
             rates_unavailable
               (print_stats fmt_f0 fmt_f1 now current previous elapsed)).
  { intros fmt_f0 fmt_f1 now current [p |] elapsed Hinvalid;
      unfold rates_unavailable, print_stats.
    - rewrite Hinvalid. repeat split.
    - repeat split. }
  split; [exact Hdash | split; [| split; [| split; reflexivity]]].
  - intros cfg env st Hinvalid Hread.
    destruct (tick_read_succeeded cfg env st Hread)
      as (current & tail & _ & Htrace & _).
    cbv zeta in Htrace. rewrite Hinvalid in Htrace.
    now exists current, tail.
  - intros cfg script running e Hfirst.
    destruct (main_loop_first_print cfg script (loop_entry running) e
                eq_refl eq_refl Hfirst) as (current & ->).
    split; [now exists current |].
    intros fmt_f0 fmt_f1 now. eexists. split; [reflexivity |].
    now apply Hdash.
Qed.

Lemma first_tick_unavailable_witness :
  exists current tail,
    trace (tick (sample_config 3)
             {| tick_source := sample_source "1000" "3000" 50;
                tick_signal := None |}
             (loop_entry true))
    = [] ++ EvRead true :: EvPrintStats current None 0.0 :: tail.
Proof.
  apply (proj1 (proj2 first_tick_unavailable)); reflexivity.
Defined.

(** C7, as stated, fails: with a maximum of 3 iterations and no signal,
    a script in which [eth0] is missing at the first tick and present
    afterwards makes the loop sample 4 times before it stops, the failed
    attempt not being counted. *)
Lemma bounded_run_counterexample :
  let absent :=
    {| tick_source := source_without_eth0; tick_signal := None |} in
  let present :=
    {| tick_source := sample_source "1000" "3000" 50; tick_signal := None |} in
  exists st,
    main_loop (sample_config 3) [absent; present; present; present; present]
      (loop_entry true) = Stopped st /\
    reads (trace st) = 4%nat /\ successes (trace st) = 3%nat /\
    iteration st = 3 /\ keep_running st = true.
Proof.
  eexists. split; [vm_compute; reflexivity |]. repeat split.
Qed.

Lemma failed_reads_sleep_app (seconds : Z) (t u : list event) :
  failed_reads_sleep seconds t -> failed_reads_sleep seconds u ->
  failed_reads_sleep seconds (t ++ u).
Proof.
  intros Ht Hu. induction t as [| e t IH]; [exact Hu |].
  destruct e as [[] | | | |]; simpl in Ht |- *; auto.
  destruct Ht as [(rest & ->) Ht]. split; [| now apply IH].
  now exists (rest ++ u).
Qed.

Lemma failed_reads_sleep_no_read (seconds : Z) (t : list event) :
  reads t = 0%nat -> failed_reads_sleep seconds t.
Proof.
  induction t as [| ev t IH]; intros Hreads; [exact I |].
  destruct ev as [ok | | current previous elapsed | | requested slept];
    try discriminate Hreads; simpl; apply IH; exact Hreads.
Qed.

(** A quiet tick whose read fails: the warning, the whole sleep, and
    nothing counted. *)
Lemma tick_quiet_failed (cfg : config) (env : tick_env) (st : loop_state) :
  quiet env -> read_ok cfg env = false ->
  trace (tick cfg env st)
  = trace st ++ [EvRead false; EvWarning;
                 EvSleep (interval cfg) (interval cfg)] /\
  iteration (tick cfg env st) = iteration st /\
  keep_running (tick cfg env st) = keep_running st.
Proof.
  unfold quiet. intros Hquiet Hread.
  rewrite (tick_read_failed cfg env st Hread), Hquiet. repeat split.
Qed.

Lemma tick_quiet_sleeps (cfg : config) (env : tick_env) (st : loop_state) :
  quiet env ->
  failed_reads_sleep (interval cfg) (trace st) ->
  failed_reads_sleep (interval cfg) (trace (tick cfg env st)).
Proof.
  intros Hquiet Hst. destruct (read_ok cfg env) eqn:Hread.
  - destruct (tick_read_succeeded cfg env st Hread)
      as (current & tail & _ & Htrace & Hreads & _).
    cbv zeta in Htrace. rewrite Htrace.
    apply failed_reads_sleep_app; [exact Hst |]. simpl.
    now apply failed_reads_sleep_no_read.
  - destruct (tick_quiet_failed cfg env st Hquiet Hread) as (-> & _).
    apply failed_reads_sleep_app; [exact Hst |]. simpl.
    split; [now exists [] | trivial].
Qed.

Lemma main_loop_quiet_sleeps (cfg : config) (script : list tick_env) :
  Forall quiet script ->
  forall st,
    failed_reads_sleep (interval cfg) (trace st) ->
    failed_reads_sleep (interval cfg)
      (trace (state_of (main_loop cfg script st))).
Proof.
  induction 1 as [| env script Henv _ IH]; intros st Hst; simpl;
    destruct (loop_guard cfg (keep_running st) (iteration st)); simpl;
    auto using tick_quiet_sleeps.
Qed.

(** C7 (amended): in a bounded run with a positive maximum and no
    signal, the loop samples until as many reads have succeeded as the
    maximum says and then stops. A failed read is followed at once by
    the warning and by a sleep of the whole interval, and is not
    counted: the iteration count stays as it was. When every read
    succeeds that is exactly as many sampling attempts as the maximum (3
    for a maximum of 3); a script too short leaves the loop running. The
    loop leaves its [while] when the guard, tested before each tick,
    finds the flag cleared or the count of successful ticks at the
    maximum. *)
Theorem bounded_run (cfg : config) (script : list tick_env) :
  0 < max_iterations cfg -> Forall quiet script ->
  let needed := Z.to_nat (max_iterations cfg) in
  match ticks_until cfg needed script with
  | Some n =>
      exists st,
        main_loop cfg script (loop_entry true) = Stopped st /\
        reads (trace st) = n /\ successes (trace st) = needed /\
        iteration st = max_iterations cfg /\ keep_running st = true
  | None =>
      exists st,
        main_loop cfg script (loop_entry true) = Running st /\
        reads (trace st) = List.length script
  end /\
  failed_reads_sleep (interval cfg)
    (trace (state_of (main_loop cfg script (loop_entry true)))) /\
  (forall env st,
      In env script -> read_ok cfg env = false ->
      trace (tick cfg env st)
      = trace st ++ [EvRead false; EvWarning;
                     EvSleep (interval cfg) (interval cfg)] /\
      iteration (tick cfg env st) = iteration st) /\
  (forallb (read_ok cfg) script = true ->
   (needed <= List.length script)%nat ->
   ticks_until cfg needed script = Some needed) /\
  (forall st rest,
      keep_running st = false \/ max_iterations cfg <= iteration st ->
      main_loop cfg rest st = Stopped st).
Proof.
  intros Hmax Hquiet needed. split; [| split; [| split; [| split]]].
  - pose proof (main_loop_quiet cfg script Hmax Hquiet (loop_entry true) needed
                  eq_refl) as H.
    cbn [loop_entry iteration trace] in H.
    specialize (H ltac:(unfold needed; lia)).
    exact H.
  - now apply main_loop_quiet_sleeps.
  - intros env st Hin Hread.
    rewrite Forall_forall in Hquiet.
    destruct (tick_quiet_failed cfg env st (Hquiet env Hin) Hread)
      as (Htrace & Hiter & _).
    now split.
  - apply ticks_until_all_ok.
  - intros st rest Hstop. apply main_loop_guard_false.
    rewrite loop_guard_bounded by assumption.
    destruct Hstop as [-> | Hcount]; [reflexivity |].
    destruct (Z.ltb_spec (iteration st) (max_iterations cfg)); [lia |].
    apply andb_false_r.
Qed.

Lemma bounded_run_witness :
  failed_reads_sleep 2
    (trace
       (state_of
          (main_loop (sample_config 3)
             [{| tick_source := source_without_eth0; tick_signal := None |};
              {| tick_source := sample_source "1000" "3000" 50;
                 tick_signal := None |};
              {| tick_source := sample_source "1000" "3000" 52;
                 tick_signal := None |};
              {| tick_source := sample_source "1000" "3000" 54;
                 tick_signal := None |}]
             (loop_entry true)))) /\
  exists st,
    main_loop (sample_config 3)
      [{| tick_source := source_without_eth0; tick_signal := None |};
       {| tick_source := sample_source "1000" "3000" 50; tick_signal := None |};
       {| tick_source := sample_source "1000" "3000" 52; tick_signal := None |};
       {| tick_source := sample_source "1000" "3000" 54; tick_signal := None |}]
      (loop_entry true) = Stopped st /\
    reads (trace st) = 4%nat /\ successes (trace st) = 3%nat /\
    iteration st = 3 /\ keep_running st = true.
Proof.
  assert (Hpos : 0 < max_iterations (sample_config 3)) by reflexivity.
  assert (Hquiet :
    Forall quiet
      [{| tick_source := source_without_eth0; tick_signal := None |};
       {| tick_source := sample_source "1000" "3000" 50; tick_signal := None |};
       {| tick_source := sample_source "1000" "3000" 52; tick_signal := None |};
       {| tick_source := sample_source "1000" "3000" 54; tick_signal := None |}])
    by (repeat constructor).
  pose proof (bounded_run (sample_config 3) _ Hpos Hquiet) as [Hrun [Hsleep _]].
  split; [exact Hsleep |].
  vm_compute ticks_until in Hrun. exact Hrun.
Defined.

(** C8: when a signal is delivered during the sleep of a tick, before
    the interval is over, the sleep ends at once, having lasted less
    than the interval, with the flag cleared; the loop then leaves its
    [while] at the next test of the guard, whatever ticks might have
    followed, so that the read of that tick is the last one. *)
Theorem cancelled_sleep_stops (cfg : config) (env : tick_env)
    (script : list tick_env) (st : loop_state) (signum after : Z) :
  loop_guard cfg (keep_running st) (iteration st) = true ->
  tick_signal env = Some (signum, SigSleeping after) ->
  0 <= after < interval cfg ->
  main_loop cfg (env :: script) st = Stopped (tick cfg env st) /\
  reads (trace (tick cfg env st)) = S (reads (trace st)) /\
  (read_ok cfg env = false \/
   loop_guard cfg (keep_running st) (iteration st + 1) = true ->
   keep_running (tick cfg env st) = false /\
   exists events,
     trace (tick cfg env st)
     = trace st ++ events ++ [EvSleep (interval cfg) after]).
Proof.
  intros Hguard Hsig Hafter.
  assert (Hrun : keep_running st = true).
  { unfold loop_guard in Hguard. now apply andb_true_iff in Hguard. }
  assert (Hsleep : sleep true (interval cfg)
                     (Some (signum, SigSleeping after))
                   = (false, after)).
  { unfold sleep.
    destruct (Z.leb_spec 0 after); [| lia].
    destruct (Z.ltb_spec after (interval cfg)); [reflexivity | lia]. }
  rewrite main_loop_guard_true by assumption.
  destruct (read_ok cfg env) eqn:Hread.
  - destruct (tick_read_succeeded cfg env st Hread)
      as (current & tail & _ & Htrace & Hreads & _ & _ & _ & Hiter & Hkeep).
    cbv zeta in Htrace, Hkeep. rewrite Hsig, Hrun in Hkeep.
    cbn [deliver at_sampling at_before_sleep] in Hkeep.
    rewrite Hsleep in Hkeep. cbn [fst snd] in Hkeep.
    rewrite Htrace, reads_app.
    change (reads (EvRead true :: ?p :: tail)) with (S (reads tail)).
    rewrite Hreads, Nat.add_1_r.
    destruct (loop_guard cfg true (iteration st + 1)) eqn:Hnext.
    + destruct Hkeep as [Hkeep (header & ->)].
      split; [| split; [reflexivity |]].
      * apply main_loop_guard_false. now rewrite Hkeep.
      * intros _. split; [assumption |].
        eexists (EvRead true :: _ :: header). reflexivity.
    + destruct Hkeep as [Hkeep _].
      split; [| split; [reflexivity |]].
      * apply main_loop_guard_false. now rewrite Hkeep, Hiter.
      * rewrite Hrun. intros [H | H]; congruence.
  - rewrite (tick_read_failed cfg env st Hread), Hsig, Hrun.
    cbn [deliver at_sampling at_before_sleep].
    rewrite Hsleep. cbn [fst snd].
    split; [| split].
    + now apply main_loop_guard_false.
    + cbn [trace]. rewrite reads_app. cbn. lia.
    + intros _. split; [reflexivity |].
      now exists [EvRead false; EvWarning].
Qed.

Lemma cancelled_sleep_stops_witness :
  let cancelled :=
    {| tick_source := sample_source "1000" "3000" 50;
       tick_signal := Some (SIGINT, SigSleeping 1) |} in
  let later :=
    {| tick_source := sample_source "3048" "3000" 52; tick_signal := None |} in
  main_loop (sample_config (-1)) [cancelled; later; later] (loop_entry true)
  = Stopped (tick (sample_config (-1)) cancelled (loop_entry true)).
Proof.
  intros cancelled later.
  refine (proj1 (cancelled_sleep_stops (sample_config (-1)) cancelled
                   [later; later] (loop_entry true) SIGINT 1 eq_refl eq_refl
                   _)).
  simpl. lia.
Defined.

(* ================================================================= *)
(** * Further properties of the code *)

(* ----------------------------------------------------------------- *)
(** ** More on the delta and the rate *)

(** X1: for a counter that is 32 bits wide, [safe_delta] recovers the
    true increase across one wrap: if the counter stood at [previous]
    and grew by [d], both below [2^32], so that it now reads
    [(previous + d) mod 2^32], the delta is [d]. *)
Theorem safe_delta_recovers_32bit_wrap (previous d : Z) :
  0 <= previous < 2 ^ 32 -> 0 <= d < 2 ^ 32 ->
  safe_delta ((previous + d) mod 2 ^ 32) previous = d.
Proof.
  intros Hp Hd.
  destruct (Z.lt_ge_cases (previous + d) (2 ^ 32)) as [Hfit | Hwrap].
  - rewrite Z.mod_small by lia.
    rewrite safe_delta_ge; [lia | u64_lia | u64_lia | lia].
  - assert (E : (previous + d) mod 2 ^ 32 = previous + d - 2 ^ 32).
    { symmetry. apply Z.mod_unique with (q := 1); lia. }
    rewrite E, safe_delta_mod by lia.
    change 0x100000000 with (2 ^ 32).
    replace (2 ^ 32 - previous + (previous + d - 2 ^ 32)) with d by lia.
    apply Z.mod_small. lia.
Qed.

Lemma safe_delta_recovers_32bit_wrap_witness :
  safe_delta ((4294967290 + 16) mod 2 ^ 32) 4294967290 = 16.
Proof.
  apply (safe_delta_recovers_32bit_wrap 4294967290 16); lia.
Defined.

(** X2: whatever the two unsigned 64-bit counters, adding the delta to
    the previous value gives the current value modulo [2^32]: the delta
    never disagrees with the low 32 bits of the counters. *)
Theorem safe_delta_consistent_mod_2_32 (current previous : Z) :
  U64.in_range current -> U64.in_range previous ->
  (previous + safe_delta current previous) mod 2 ^ 32 = current mod 2 ^ 32.
Proof.
  intros Hc Hp.
  destruct (Z.lt_ge_cases current previous) as [Hlt | Hge].
  - rewrite safe_delta_mod by assumption.
    change 0x100000000 with (2 ^ 32).
    pose proof (Z.div_mod (2 ^ 32 - previous + current) (2 ^ 64)
                  ltac:(lia)) as Hdiv.
    set (q := (2 ^ 32 - previous + current) / 2 ^ 64) in *.
    replace (previous + (2 ^ 32 - previous + current) mod 2 ^ 64)
      with (current + (1 - 2 ^ 32 * q) * 2 ^ 32) by lia.
    apply Z_mod_plus_full.
  - rewrite safe_delta_ge by assumption. f_equal. lia.
Qed.

Lemma safe_delta_consistent_mod_2_32_witness :
  (8589934592 + safe_delta 5 8589934592) mod 2 ^ 32 = 5 mod 2 ^ 32.
Proof.
  apply (safe_delta_consistent_mod_2_32 5 8589934592); u64_lia.
Defined.

(** X3: between two snapshots that carry the same timestamp, as two
    reads whose [clock_gettime] failed do, no time has elapsed and the
    rate is exactly [0] for every delta. *)
Theorem same_timestamp_rate_zero (t : timespec) (delta : Z) :
  timespec_diff t t = 0%float /\
  calculate_rate delta (timespec_diff t t) = 0%float.
Proof.
  unfold timespec_diff. rewrite !Z.sub_diag. split; reflexivity.
Qed.

(* ----------------------------------------------------------------- *)
(** ** Formatting *)

Lemma scale_1024_index (steps : nat) (value : float) (unit_idx : nat) :
  (snd (scale_1024 steps value unit_idx) <= unit_idx + steps)%nat.
Proof.
  revert value unit_idx.
  induction steps as [| steps IH]; intros value unit_idx; simpl; [lia |].
  destruct (1024 <=? value)%float; simpl; [| lia].
  specialize (IH (value / 1024)%float (S unit_idx)). lia.
Qed.

(** X4: the unit index of [format_bytes] and of [format_rate] never
    leaves the table of units: every text they make is a number, a
    space and one of B, KB, MB, GB, TB (one of B/s, KB/s, MB/s, GB/s for
    a rate), cut to 31 bytes. *)
Theorem format_unit_in_table (fmt_f0 fmt_f1 : float -> cstring) :
  (forall bytes,
      exists number unit_,
        In unit_ (map list_ascii_of_string ["B"; "KB"; "MB"; "GB"; "TB"]%string) /\
        format_bytes fmt_f1 bytes = snprintf32 (number ++ [SPACE] ++ unit_)) /\
  (forall rate,
      exists number unit_,
        In unit_ (map list_ascii_of_string ["B/s"; "KB/s"; "MB/s"; "GB/s"]%string) /\
        format_rate fmt_f0 fmt_f1 rate = snprintf32 (number ++ [SPACE] ++ unit_)).
Proof.
  split.
  - intros bytes. unfold format_bytes.
    pose proof (scale_1024_index 4 (double_of_Z bytes) 0) as Hidx.
    destruct (scale_1024 4 (double_of_Z bytes) 0) as [value unit_idx].
    simpl in Hidx.
    destruct unit_idx as [| [| [| [| [| ]]]]]; try lia; simpl;
      eexists; eexists; (split; [| reflexivity]); simpl; tauto.
  - intros rate. unfold format_rate.
    pose proof (scale_1024_index 3 rate 0) as Hidx.
    destruct (scale_1024 3 rate 0) as [value unit_idx]. simpl in Hidx.
    destruct (rate <? 1)%float.
    + exists (list_ascii_of_string "0"), (list_ascii_of_string "B/s").
      split; [simpl; tauto | reflexivity].
    + destruct unit_idx as [| [| [| [| ]]]]; try lia; simpl;
        eexists; eexists; (split; [| reflexivity]); simpl; tauto.
Qed.

Lemma decimal_digits_length (fuel : nat) (n : Z) (acc : cstring) :
  (List.length (decimal_digits fuel n acc) <= fuel + List.length acc)%nat.
Proof.
  revert n acc. induction fuel as [| fuel IH]; intros n acc; [simpl; lia |].
  set (d := ascii_of_nat (Z.to_nat (48 + n mod 10))).
  change (decimal_digits (S fuel) n acc)
    with (if n / 10 =? 0 then d :: acc
          else decimal_digits fuel (n / 10) (d :: acc)).
  destruct (n / 10 =? 0); [simpl; lia |].
  specialize (IH (n / 10) (d :: acc)). simpl in IH. lia.
Qed.

Lemma below_1024_as_double :
  forallb (fun n => negb (1024 <=? double_of_Z (Z.of_nat n))%float)
    (seq 0 1024) = true.
Proof. vm_compute. reflexivity. Qed.

(** X5: a byte count below 1024 is shown whole, in decimal, with the
    unit B: the loop of [format_bytes] does not divide it and the
    floating-point conversion is not used. *)
Theorem format_bytes_below_1024 (fmt_f1 : float -> cstring) (bytes : Z) :
  0 <= bytes < 1024 ->
  format_bytes fmt_f1 bytes
  = fmt_llu bytes ++ [SPACE] ++ list_ascii_of_string "B".
Proof.
  intros Hb.
  assert (Hsmall : (1024 <=? double_of_Z bytes)%float = false).
  { pose proof below_1024_as_double as H. rewrite forallb_forall in H.
    specialize (H (Z.to_nat bytes)). rewrite Z2Nat.id in H by lia.
    apply negb_true_iff, H, in_seq. lia. }
  unfold format_bytes.
  change (scale_1024 4 (double_of_Z bytes) 0)
    with (if (1024 <=? double_of_Z bytes)%float
          then scale_1024 3 (double_of_Z bytes / 1024)%float 1
          else (double_of_Z bytes, 0%nat)).
  rewrite Hsmall. cbn [Nat.eqb nth map].
  unfold snprintf32. apply firstn_all2.
  rewrite !length_app. unfold fmt_llu.
  pose proof (decimal_digits_length 20 bytes []) as Hlen.
  cbn [List.length Nat.add] in Hlen.
  change (List.length [SPACE]) with 1%nat.
  change (List.length (list_ascii_of_string "B")) with 1%nat. lia.
Qed.

Lemma format_bytes_below_1024_witness :
  format_bytes (fun _ => []) 1000 = list_ascii_of_string "1000 B".
Proof.
  apply (format_bytes_below_1024 (fun _ => []) 1000). lia.
Defined.

(** X6: when a valid previous snapshot is given but the elapsed time is
    not positive, [print_stats] shows a rate of zero, ["0 B/s"] for the
    bytes and the ["%.0f"] rendering of [0.0] for the packets, whatever
    the counters; the marker ["-"] is kept for the absence of a
    previous snapshot. *)
Theorem print_stats_no_time_elapsed (fmt_f0 fmt_f1 : float -> cstring)
    (now : cstring) (current previous : net_stats_t) (elapsed : float) :
  valid previous = true ->
  (elapsed <=? 0)%float = true ->
  let line := print_stats fmt_f0 fmt_f1 now current (Some previous) elapsed in
  col_rx_rate line = list_ascii_of_string "0 B/s" /\
  col_tx_rate line = list_ascii_of_string "0 B/s" /\
  col_rx_pkt_rate line = snprintf32 (fmt_f0 0%float) /\
  col_tx_pkt_rate line = snprintf32 (fmt_f0 0%float) /\
  col_rx_rate line <> DASH.
Proof.
  intros Hvalid Helapsed. unfold print_stats, calculate_rate.
  rewrite Hvalid, Helapsed. cbn.
  repeat split. discriminate.
Qed.

Lemma print_stats_no_time_elapsed_witness :
  col_rx_rate
    (print_stats (fun _ => []) (fun _ => []) []
       (snd (read_net_stats (sample_source "3048" "3000" 50)
               (list_ascii_of_string "eth0") zero_stats))
       (Some (snd (read_net_stats (sample_source "1000" "3000" 50)
                     (list_ascii_of_string "eth0") zero_stats)))
       0%float)
  = list_ascii_of_string "0 B/s".
Proof.
  apply (print_stats_no_time_elapsed (fun _ => []) (fun _ => []) []
           (snd (read_net_stats (sample_source "3048" "3000" 50)
                   (list_ascii_of_string "eth0") zero_stats))
           (snd (read_net_stats (sample_source "1000" "3000" 50)
                   (list_ascii_of_string "eth0") zero_stats))
           0%float); reflexivity.
Defined.

(* ----------------------------------------------------------------- *)
(** ** Labels *)

Lemma blank_not_colon (c : ascii) :
  is_blank c = true -> Ascii.eqb c COLON = false.
Proof.
  unfold is_blank. rewrite orb_true_iff, !Ascii.eqb_eq.
  intros [-> | ->]; reflexivity.
Qed.

Lemma blanks_colon_free (s : cstring) : blanks s -> colon_free s.
Proof.
  unfold blanks, colon_free. induction s as [| c s IH]; simpl; [trivial |].
  rewrite !andb_true_iff. intros [Hc Hs].
  split; [now rewrite blank_not_colon | auto].
Qed.

Lemma colon_free_app (a b : cstring) :
  colon_free a -> colon_free b -> colon_free (a ++ b).
Proof.
  unfold colon_free. intros Ha Hb. now rewrite forallb_app, Ha, Hb.
Qed.

Lemma strchr_cut_first_colon (before after : cstring) :
  colon_free before ->
  strchr_cut COLON (before ++ COLON :: after) = Some (before, after).
Proof.
  unfold colon_free. induction before as [| c before IH]; simpl.
  - reflexivity.
  - rewrite andb_true_iff, negb_true_iff. intros [Hc Hrest].
    now rewrite Hc, IH.
Qed.

Lemma skip_blanks_app (b r : cstring) :
  blanks b -> skip_blanks (b ++ r) = skip_blanks r.
Proof.
  unfold blanks. induction b as [| c b IH]; simpl; [reflexivity |].
  rewrite andb_true_iff. intros [Hc Hb]. now rewrite Hc, IH.
Qed.

Lemma skip_blanks_all (b : cstring) : blanks b -> skip_blanks b = [].
Proof.
  intros Hb. rewrite <- (app_nil_r b). now rewrite skip_blanks_app.
Qed.

Lemma skip_blanks_stops (s : cstring) :
  match s with [] => True | c :: _ => is_blank c = false end ->
  skip_blanks s = s.
Proof. destruct s as [| c s]; simpl; [reflexivity | now intros ->]. Qed.

Lemma skip_blanks_length (s : cstring) :
  (List.length (skip_blanks s) <= List.length s)%nat.
Proof.
  induction s as [| c s IH]; simpl; [lia |].
  destruct (is_blank c); simpl; lia.
Qed.

Lemma blanks_rev (s : cstring) : blanks s -> blanks (rev s).
Proof.
  unfold blanks. rewrite !forallb_forall. intros H c Hc.
  apply H. now apply in_rev.
Qed.

Lemma blanks_firstn (n : nat) (s : cstring) : blanks s -> blanks (firstn n s).
Proof.
  unfold blanks. revert n.
  induction s as [| c s IH]; intros [| n]; simpl; try reflexivity.
  rewrite !andb_true_iff. intros [Hc Hs]. auto.
Qed.

Lemma trim_trailing_blanks_app (label trail : cstring) :
  match rev label with [] => True | c :: _ => is_blank c = false end ->
  blanks trail ->
  trim_trailing_blanks (label ++ trail) = label.
Proof.
  intros Hend Htrail. unfold trim_trailing_blanks.
  rewrite rev_app_distr, skip_blanks_app by now apply blanks_rev.
  rewrite skip_blanks_stops by assumption. apply rev_involutive.
Qed.

Lemma trim_trailing_blanks_length (s : cstring) :
  (List.length (trim_trailing_blanks s) <= List.length s)%nat.
Proof.
  unfold trim_trailing_blanks. rewrite length_rev.
  pose proof (skip_blanks_length (rev s)) as H. now rewrite length_rev in H.
Qed.

(** The label [split_label] computes has at most 63 bytes. *)
Lemma split_label_length (line label body : cstring) :
  split_label line = Some (label, body) -> (List.length label <= 63)%nat.
Proof.
  unfold split_label.
  destruct (strchr_cut COLON _) as [[before after] |]; [| discriminate].
  intros E. injection E as <- _.
  pose proof (trim_trailing_blanks_length
                (strncpy_term (skip_blanks before) MAX_IFACE_LEN)) as H1.
  unfold strncpy_term, MAX_IFACE_LEN in H1 |- *.
  change (64 - 1)%nat with 63%nat in H1 |- *.
  rewrite length_firstn in H1. lia.
Qed.

(** X7: the label of a row is what stands before the first colon with
    the spaces and tabs on both sides removed: for a label of at most 63
    bytes, free of colons and with no space or tab at either end, in a
    row of at most 1023 bytes, [parse_interface_line] compares exactly
    the label and converts exactly the text behind the colon. *)
Theorem split_label_trims (lead label trail body : cstring) :
  blanks lead -> blanks trail -> clean_label label ->
  (List.length label <= 63)%nat ->
  (List.length (lead ++ label ++ trail ++ COLON :: body) <= 1023)%nat ->
  split_label (lead ++ label ++ trail ++ COLON :: body) = Some (label, body).
Proof.
  intros Hlead Htrail (Hfree & Hstart & Hend) Hlabel Hline.
  unfold split_label, strncpy_term at 1, MAX_LINE_LEN.
  rewrite firstn_all2 by (simpl; lia).
  replace (lead ++ label ++ trail ++ COLON :: body)
    with ((lead ++ label ++ trail) ++ COLON :: body)
    by now rewrite <- !app_assoc.
  rewrite strchr_cut_first_colon
    by (repeat apply colon_free_app; auto using blanks_colon_free).
  rewrite skip_blanks_app by assumption.
  f_equal. f_equal.
  destruct label as [| c label].
  - simpl. rewrite skip_blanks_all by assumption. reflexivity.
  - rewrite skip_blanks_stops by exact Hstart.
    unfold strncpy_term, MAX_IFACE_LEN.
    rewrite firstn_app, (firstn_all2 (c :: label)) by (simpl in *; lia).
    apply trim_trailing_blanks_app; [exact Hend |].
    now apply blanks_firstn.
Qed.

Lemma split_label_trims_witness :
  split_label (list_ascii_of_string "   eth0 : 1 2 3")
  = Some (list_ascii_of_string "eth0", list_ascii_of_string " 1 2 3").
Proof.
  apply (split_label_trims (list_ascii_of_string "   ")
           (list_ascii_of_string "eth0") (list_ascii_of_string " ")
           (list_ascii_of_string " 1 2 3")); try reflexivity.
  - repeat split.
  - simpl. lia.
  - simpl. lia.
Defined.

(* ----------------------------------------------------------------- *)
(** ** The reader *)

Lemma scan_lines_never (lines : list (list ascii)) (line_num : Z)
    (interface_ : cstring) (clock : option timespec) (stats : net_stats_t) :
  (forall line, In line lines ->
                fst (parse_interface_line (c_str line) interface_ stats) = false) ->
  scan_lines lines line_num interface_ clock stats = (false, stats).
Proof.
  revert line_num. induction lines as [| line rest IH]; intros line_num Hall;
    [reflexivity |].
  simpl. destruct (line_num + 1 <=? 2).
  - apply IH. intros l Hl. apply Hall. now right.
  - rewrite (parse_failure_keeps _ _ _ (Hall line (or_introl eq_refl))).
    apply IH. intros l Hl. apply Hall. now right.
Qed.

(** X8: an interface name of 64 bytes or more is never found: the label
    of a row is cut to 63 bytes before it is compared, so that no row
    parses and every read fails, whatever the source holds. *)
Theorem long_interface_name_never_found (interface_ : cstring) :
  (64 <= List.length interface_)%nat ->
  (forall line stats,
      parse_interface_line line interface_ stats = (false, stats)) /\
  (forall src stats, read_net_stats src interface_ stats = (false, stats)).
Proof.
  intros Hlong.
  assert (Hparse : forall line stats,
             parse_interface_line line interface_ stats = (false, stats)).
  { intros line stats. rewrite parse_interface_line_eq.
    destruct (split_label line) as [[label body] |] eqn:Hsplit; [| reflexivity].
    destruct (streq label interface_) eqn:E; [| reflexivity].
    apply streq_true_iff in E. subst label.
    apply split_label_length in Hsplit. lia. }
  split; [exact Hparse |].
  intros src stats. unfold read_net_stats.
  destruct (proc_net_dev src); [| reflexivity].
  apply scan_lines_never. intros line _. now rewrite Hparse.
Qed.

Lemma long_interface_name_never_found_witness :
  read_net_stats (sample_source "1000" "3000" 50)
    (list_ascii_of_string
       "eth0eth0eth0eth0eth0eth0eth0eth0eth0eth0eth0eth0eth0eth0eth0eth0")
    zero_stats
  = (false, zero_stats).
Proof.
  apply (proj2 (long_interface_name_never_found
    (list_ascii_of_string
       "eth0eth0eth0eth0eth0eth0eth0eth0eth0eth0eth0eth0eth0eth0eth0eth0")
    ltac:(simpl; lia))).
Defined.

Lemma scan_lines_success_iff (lines : list (list ascii)) (line_num : Z)
    (interface_ : cstring) (clock : option timespec) (stats : net_stats_t) :
  2 <= line_num ->
  fst (scan_lines lines line_num interface_ clock stats) = true <->
  Exists (fun line =>
            fst (parse_interface_line (c_str line) interface_ stats) = true)
    lines.
Proof.
  revert line_num. induction lines as [| line rest IH]; intros line_num Hnum.
  - simpl. split; [discriminate | inversion 1].
  - destruct (fst (parse_interface_line (c_str line) interface_ stats)) eqn:E.
    + rewrite scan_lines_hit by assumption.
      split; [intros _; now left | intros _; reflexivity].
    + rewrite scan_lines_skip, IH by (assumption || lia).
      rewrite Exists_cons. split; [now right |].
      intros [H | H]; [congruence | exact H].
Qed.

Lemma scan_lines_from_start_iff (lines : list (list ascii))
    (interface_ : cstring) (clock : option timespec) (stats : net_stats_t) :
  fst (scan_lines lines 0 interface_ clock stats) = true <->
  Exists (fun line =>
            fst (parse_interface_line (c_str line) interface_ stats) = true)
    (skipn 2 lines).
Proof.
  destruct lines as [| l1 [| l2 rest]];
    try (simpl; split; [discriminate | inversion 1]).
  change (scan_lines (l1 :: l2 :: rest) 0 interface_ clock stats)
    with (scan_lines rest 2 interface_ clock stats).
  apply scan_lines_success_iff. lia.
Qed.

(** X9: a read succeeds exactly when the source can be opened and a
    line behind the first two parses for the requested interface; the
    two header lines are never looked at, whatever they hold. *)
Theorem read_succeeds_iff (src : source) (interface_ : cstring)
    (stats : net_stats_t) :
  fst (read_net_stats src interface_ stats) = true <->
  exists text,
    proc_net_dev src = Some text /\
    Exists (fun line =>
              fst (parse_interface_line (c_str line) interface_ stats) = true)
      (skipn 2 (fgets_all MAX_LINE_LEN text)).
Proof.
  unfold read_net_stats. destruct (proc_net_dev src) as [text |].
  - rewrite scan_lines_from_start_iff. split.
    + intros H. now exists text.
    + intros (t & E & H). injection E as <-. exact H.
  - simpl. split; [discriminate | intros (t & E & _); discriminate].
Qed.

Lemma scan_lines_fresh (lines : list (list ascii)) (line_num : Z)
    (interface_ : cstring) (clock : option timespec) (s1 s2 : net_stats_t) :
  fst (scan_lines lines line_num interface_ clock s1) = true ->
  scan_lines lines line_num interface_ clock s2
  = scan_lines lines line_num interface_ clock s1.
Proof.
  revert line_num s1 s2.
  induction lines as [| line rest IH]; intros line_num s1 s2; [discriminate |].
  simpl. destruct (line_num + 1 <=? 2); [apply IH |].
  rewrite !parse_interface_line_eq.
  destruct (split_label (c_str line)) as [[label body] |]; [| apply IH].
  destruct (_ && _ && _); [| apply IH].
  intros _. now destruct clock.
Qed.

Lemma scan_lines_success_shape (lines : list (list ascii)) (line_num : Z)
    (interface_ : cstring) (clock : option timespec) (stats : net_stats_t) :
  fst (scan_lines lines line_num interface_ clock stats) = true ->
  exists line,
    In line lines /\
    fst (parse_interface_line (c_str line) interface_ stats) = true /\
    snd (scan_lines lines line_num interface_ clock stats)
    = set_timestamp
        match clock with
        | Some now => now
        | None => {| tv_sec := 0; tv_nsec := 0 |}
        end
        (snd (parse_interface_line (c_str line) interface_ stats)).
Proof.
  revert line_num. induction lines as [| line rest IH]; intros line_num;
    [discriminate |].
  simpl. destruct (line_num + 1 <=? 2).
  - intros H. destruct (IH _ H) as (l & Hin & Hok & E). exists l. auto.
  - destruct (parse_interface_line (c_str line) interface_ stats)
      as [[] stats'] eqn:Hparse.
    + intros _. exists line. rewrite Hparse. simpl.
      repeat split; [now left | now destruct clock].
    + assert (Hkeep : stats' = stats).
      { pose proof (parse_failure_keeps (c_str line) interface_ stats) as K.
        rewrite Hparse in K. specialize (K eq_refl). congruence. }
      subst stats'. intros H.
      destruct (IH _ H) as (l & Hin & Hok & E). exists l. auto.
Qed.

(** X10: a successful read hands back a wholly new snapshot: nothing of
    what the snapshot held before survives, it is valid, it carries the
    requested name, its eight counters are unsigned 64-bit values, and
    its timestamp is the clock's reading, or zero if the clock failed. *)
Theorem successful_read_is_fresh (src : source) (interface_ : cstring)
    (stats : net_stats_t) :
  fst (read_net_stats src interface_ stats) = true ->
  let result := snd (read_net_stats src interface_ stats) in
  (forall other, read_net_stats src interface_ other = (true, result)) /\
  valid result = true /\
  interface result = interface_ /\
  Forall U64.in_range (counters result) /\
  timestamp result
  = match clock_monotonic src with
    | Some now => now
    | None => {| tv_sec := 0; tv_nsec := 0 |}
    end.
Proof.
  unfold read_net_stats. destruct (proc_net_dev src) as [text |];
    [| discriminate].
  intros Hok. cbv zeta. split.
  - intros other. rewrite (scan_lines_fresh _ _ _ _ stats other Hok).
    destruct (scan_lines _ _ _ _ stats). simpl in Hok. now subst.
  - destruct (scan_lines_success_shape _ _ _ _ _ Hok)
      as (line & _ & Hparse & ->).
    pose proof (parsed_counters_in_range _ _ _ Hparse) as Hrange.
    rewrite parse_interface_line_eq in Hparse, Hrange |- *.
    destruct (split_label (c_str line)) as [[label body] |] eqn:Hsplit;
      [| discriminate].
    destruct (streq label interface_) eqn:Hlabel; [| discriminate].
    destruct (_ && _ && _); [| discriminate].
    apply streq_true_iff in Hlabel. subst label.
    apply split_label_length in Hsplit.
    repeat split; try assumption.
    simpl. unfold strncpy_term, MAX_IFACE_LEN. apply firstn_all2. simpl. lia.
Qed.

Lemma successful_read_is_fresh_witness :
  interface
    (snd (read_net_stats (sample_source "1000" "3000" 50)
            (list_ascii_of_string "eth0") zero_stats))
  = list_ascii_of_string "eth0".
Proof.
  assert (Hok : fst (read_net_stats (sample_source "1000" "3000" 50)
                       (list_ascii_of_string "eth0") zero_stats) = true)
    by (vm_compute; reflexivity).
  exact (proj1 (proj2 (proj2 (successful_read_is_fresh _ _ _ Hok)))).
Defined.

(* ----------------------------------------------------------------- *)
(** ** The listing of available interfaces *)

(** No line [fgets] returns into a buffer of 1024 bytes is longer than
    1023 bytes. *)
Lemma fgets_from_length (s buf : list ascii) (room : nat) :
  (1 <= room)%nat -> (List.length buf + room = 1023)%nat ->
  Forall (fun line => (List.length line <= 1023)%nat)
    (fgets_from MAX_LINE_LEN room buf s).
Proof.
  revert buf room. induction s as [| c s IH]; intros buf room Hroom Hsum.
  - simpl. destruct buf; constructor; [| constructor].
    rewrite length_rev. lia.
  - simpl. destruct (Ascii.eqb c LF || (room <=? 1)%nat) eqn:Hend.
    + constructor.
      * rewrite length_app, length_rev. simpl. lia.
      * apply IH; simpl; lia.
    + apply orb_false_iff in Hend as [_ Hend].
      apply Nat.leb_gt in Hend. apply IH; simpl; lia.
Qed.

Lemma c_str_length (buf : list ascii) :
  (List.length (c_str buf) <= List.length buf)%nat.
Proof.
  induction buf as [| c buf IH]; simpl; [lia |].
  destruct (Ascii.eqb c NUL); simpl; lia.
Qed.

Lemma listed_label_split_label (line label body : cstring) :
  (List.length line <= 1023)%nat ->
  split_label line = Some (label, body) ->
  listed_label line = Some label.
Proof.
  intros Hlen. unfold split_label, listed_label, strncpy_term at 1, MAX_LINE_LEN.
  rewrite firstn_all2 by (simpl; lia).
  destruct (strchr_cut COLON line) as [[before after] |]; [| discriminate].
  intros E. injection E as <- _. reflexivity.
Qed.

Lemma list_labels_has_match (lines : list (list ascii)) (line_num : Z)
    (interface_ : cstring) (clock : option timespec) (stats : net_stats_t) :
  Forall (fun line => (List.length line <= 1023)%nat) lines ->
  fst (scan_lines lines line_num interface_ clock stats) = true ->
  In interface_ (list_labels lines line_num).
Proof.
  intros Hlen. revert line_num.
  induction Hlen as [| line rest Hline _ IH]; intros line_num; [discriminate |].
  simpl. destruct (line_num + 1 <=? 2); [apply IH |].
  destruct (fst (parse_interface_line (c_str line) interface_ stats)) eqn:Hparse.
  - intros _. rewrite parse_interface_line_eq in Hparse.
    destruct (split_label (c_str line)) as [[label body] |] eqn:Hsplit;
      [| discriminate].
    destruct (streq label interface_) eqn:Hlabel; [| discriminate].
    apply streq_true_iff in Hlabel. subst label.
    assert (Hshort : (List.length (c_str line) <= 1023)%nat)
      by (pose proof (c_str_length line); lia).
    rewrite (listed_label_split_label _ _ _ Hshort Hsplit).
    now left.
  - rewrite (parse_failure_keeps _ _ _ Hparse). intros H.
    specialize (IH _ H).
    destruct (listed_label (c_str line)); [now right | exact IH].
Qed.

(** X11: the listing [main] prints when the interface is not found
    leaves out no interface that can be monitored: every name for which
    a read of a source succeeds is among the labels listed from that
    source. *)
Theorem monitorable_interface_is_listed (src : source)
    (interface_ : cstring) (stats : net_stats_t) :
  fst (read_net_stats src interface_ stats) = true ->
  In interface_ (available_interfaces src).
Proof.
  unfold read_net_stats, available_interfaces.
  destruct (proc_net_dev src) as [text |]; [| discriminate].
  apply list_labels_has_match.
  apply fgets_from_length; simpl; lia.
Qed.

Lemma monitorable_interface_is_listed_witness :
  In (list_ascii_of_string "eth0")
    (available_interfaces (sample_source "1000" "3000" 50)).
Proof.
  assert (Hok : fst (read_net_stats (sample_source "1000" "3000" 50)
                       (list_ascii_of_string "eth0") zero_stats) = true)
    by (vm_compute; reflexivity).
  exact (monitorable_interface_is_listed _ _ _ Hok).
Defined.

(* ----------------------------------------------------------------- *)
(** ** Invariants of the poll loop *)

(** What every tick entered under the guard keeps, every run keeps. *)
Lemma main_loop_invariant (P : loop_state -> Prop) (cfg : config) :
  (forall env st,
      loop_guard cfg (keep_running st) (iteration st) = true ->
      P st -> P (tick cfg env st)) ->
  forall script st, P st -> P (state_of (main_loop cfg script st)).
Proof.
  intros Hstep script.
  induction script as [| env script IH]; intros st Hst; simpl;
    destruct (loop_guard cfg (keep_running st) (iteration st)) eqn:Hguard;
    simpl; auto.
Qed.

Lemma prints_app (t u : list event) : prints (t ++ u) = (prints t + prints u)%nat.
Proof. unfold prints. now rewrite filter_app, length_app. Qed.

Lemma headers_app (t u : list event) :
  headers (t ++ u) = (headers t + headers u)%nat.
Proof. unfold headers. now rewrite filter_app, length_app. Qed.

Lemma tick_counted (cfg : config) (env : tick_env) (st : loop_state) :
  counted st -> counted (tick cfg env st).
Proof.
  unfold counted, tick, HEADER_INTERVAL. intros (Hp & Hs & Hl & Hh).
  destruct (read_net_stats _ _ _) as [[] current]; cbn [negb].
  - destruct (Z.leb_spec 20 (lines_since_header st + 1));
      cbv beta iota zeta;
      destruct (loop_guard cfg _ _); try destruct (sleep _ _ _);
      cbn [iteration lines_since_header trace];
      rewrite !prints_app, !successes_app, !headers_app;
      cbn [prints successes headers filter is_print is_good_read is_header
           List.length app];
      lia.
  - destruct (sleep _ _ _).
    cbn [iteration lines_since_header trace].
    rewrite !prints_app, !successes_app, !headers_app.
    cbn [prints successes headers filter is_print is_good_read is_header
         List.length app].
    lia.
Qed.

Lemma run_counted (cfg : config) (script : list tick_env) (running : bool) :
  counted (state_of (main_loop cfg script (loop_entry running))).
Proof.
  apply (main_loop_invariant counted cfg
           (fun env st _ => tick_counted cfg env st)).
  unfold counted, HEADER_INTERVAL. cbn. lia.
Qed.

(** X12: in every run of the loop, with or without signals and failed
    reads, the iteration count [main] reports is the number of lines
    printed and the number of reads that succeeded; the column headers
    have been printed again once for every 20 lines, and the line
    counter stands at the remainder. *)
Theorem run_counts (cfg : config) (script : list tick_env) (running : bool) :
  let st := state_of (main_loop cfg script (loop_entry running)) in
  iteration st = Z.of_nat (prints (trace st)) /\
  iteration st = Z.of_nat (successes (trace st)) /\
  Z.of_nat (headers (trace st)) = iteration st / 20 /\
  lines_since_header st = iteration st mod 20.
Proof.
  pose proof (main_loop_invariant counted cfg
                (fun env st _ => tick_counted cfg env st)
                script (loop_entry running)) as H.
  destruct H as (Hp & Hs & Hl & Hh).
  { unfold counted, HEADER_INTERVAL. cbn. lia. }
  unfold HEADER_INTERVAL in *. cbv zeta.
  set (st := state_of (main_loop cfg script (loop_entry running))) in *.
  split; [exact Hp | split; [exact Hs |]].
  split.
  - apply Z.div_unique with (r := lines_since_header st); lia.
  - apply Z.mod_unique with (q := Z.of_nat (headers (trace st))); lia.
Qed.

(** X13: a bounded run never prints more lines than the maximum says,
    whatever signals arrive and whatever reads fail. *)
Theorem bounded_run_never_exceeds (cfg : config) (script : list tick_env)
    (running : bool) :
  0 < max_iterations cfg ->
  let st := state_of (main_loop cfg script (loop_entry running)) in
  Z.of_nat (prints (trace st)) <= max_iterations cfg /\
  iteration st <= max_iterations cfg.
Proof.
  intros Hmax. cbv zeta.
  pose proof (main_loop_invariant
                (fun st => counted st /\ iteration st <= max_iterations cfg)
                cfg) as H.
  specialize (H ltac:(
    intros env st Hguard [Hc Hle]; split; [now apply tick_counted |];
    rewrite loop_guard_bounded in Hguard by assumption;
    apply andb_true_iff in Hguard as [_ Hlt]; apply Z.ltb_lt in Hlt;
    destruct (read_ok cfg env) eqn:Hread;
    [ destruct (tick_read_succeeded cfg env st Hread)
        as (c & t & _ & _ & _ & _ & _ & _ & Hi & _); lia
    | rewrite (tick_read_failed cfg env st Hread); cbn; lia ])).
  destruct (H script (loop_entry running)) as [(Hp & _) Hle].
  { split; [unfold counted, HEADER_INTERVAL; cbn; lia | cbn; lia]. }
  split; [rewrite <- Hp |]; exact Hle.
Qed.

Lemma bounded_run_never_exceeds_witness :
  Z.of_nat
    (prints
       (trace
          (state_of
             (main_loop (sample_config 3)
                [{| tick_source := source_without_eth0; tick_signal := None |};
                 {| tick_source := sample_source "1000" "3000" 50;
                    tick_signal := Some (SIGINT, SigBeforeSleep) |}]
                (loop_entry true))))) <= 3.
Proof.
  exact (proj1 (bounded_run_never_exceeds (sample_config 3)
    [{| tick_source := source_without_eth0; tick_signal := None |};
     {| tick_source := sample_source "1000" "3000" 50;
        tick_signal := Some (SIGINT, SigBeforeSleep) |}]
    true eq_refl)).
Defined.

(** X14: without a count and without a signal the loop never leaves its
    [while]: after any number of quiet ticks it is still running, having
    read once per tick. *)
Theorem unbounded_run_keeps_running (cfg : config) (script : list tick_env) :
  max_iterations cfg < 0 -> Forall quiet script ->
  exists st,
    main_loop cfg script (loop_entry true) = Running st /\
    keep_running st = true /\
    reads (trace st) = List.length script.
Proof.
  intros Hmax Hquiet.
  assert (Hguard : forall st, keep_running st = true ->
                     loop_guard cfg (keep_running st) (iteration st) = true).
  { intros st ->. unfold loop_guard.
    destruct (Z.ltb_spec (max_iterations cfg) 0); [reflexivity | lia]. }
  assert (G : forall st, keep_running st = true ->
              exists st',
                main_loop cfg script st = Running st' /\
                keep_running st' = true /\
                reads (trace st') = (reads (trace st) + List.length script)%nat).
  { induction Hquiet as [| env script Henv _ IH]; intros st Hrun.
    - exists st. simpl. rewrite (Hguard st Hrun). auto.
    - rewrite main_loop_guard_true by auto.
      destruct (tick_quiet cfg env st Henv Hrun) as (Hrun' & Hreads & _).
      destruct (IH _ Hrun') as (st' & Hloop & Hk & Hr).
      exists st'. repeat split; try assumption. simpl. lia. }
  destruct (G (loop_entry true) eq_refl) as (st & Hloop & Hk & Hr).
  exists st. auto.
Qed.

Lemma unbounded_run_keeps_running_witness :
  exists st,
    main_loop (sample_config (-1))
      [{| tick_source := sample_source "1000" "3000" 50; tick_signal := None |};
       {| tick_source := source_without_eth0; tick_signal := None |}]
      (loop_entry true) = Running st /\
    keep_running st = true /\
    reads (trace st) = 2%nat.
Proof.
  apply (unbounded_run_keeps_running (sample_config (-1))
    [{| tick_source := sample_source "1000" "3000" 50; tick_signal := None |};
     {| tick_source := source_without_eth0; tick_signal := None |}]).
  - reflexivity.
  - repeat constructor.
Defined.

(* ----------------------------------------------------------------- *)
(** ** Signals *)

(** X15: nothing sets the flag again: a tick entered with
    [keep_running] cleared leaves it cleared, whatever it reads and
    whatever signal it gets. *)
Theorem flag_never_set_again (cfg : config) (env : tick_env)
    (st : loop_state) :
  keep_running st = false -> keep_running (tick cfg env st) = false.
Proof.
  intros Hflag.
  assert (Hdeliver : forall here sig, deliver here sig false = false).
  { intros here [[signum point] |]; simpl; [| reflexivity].
    now destruct (here point). }
  assert (Hsleep : forall seconds sig, fst (sleep false seconds sig) = false).
  { intros seconds [[signum [| | after]] |]; simpl; try reflexivity.
    now destruct (_ && _). }
  destruct (read_ok cfg env) eqn:Hread.
  - destruct (tick_read_succeeded cfg env st Hread)
      as (current & tail & _ & _ & _ & _ & _ & _ & _ & Hkeep).
    cbv zeta in Hkeep. rewrite Hflag, !Hdeliver in Hkeep.
    destruct (loop_guard cfg false _); destruct Hkeep as [-> _];
      [apply Hsleep | reflexivity].
  - rewrite (tick_read_failed cfg env st Hread), Hflag. cbn [keep_running].
    rewrite !Hdeliver. apply Hsleep.
Qed.

Lemma flag_never_set_again_witness :
  keep_running
    (tick (sample_config 3)
       {| tick_source := sample_source "1000" "3000" 50; tick_signal := None |}
       (loop_entry false)) = false.
Proof.
  apply (flag_never_set_again (sample_config 3)
           {| tick_source := sample_source "1000" "3000" 50;
              tick_signal := None |}
           (loop_entry false)).
  reflexivity.
Defined.

(** X16: a signal delivered while a tick reads and prints, the read
    succeeding, lets the tick print its line and count it, then ends the
    loop without any sleep. *)
Theorem signal_while_sampling_skips_sleep (cfg : config) (env : tick_env)
    (script : list tick_env) (st : loop_state) (signum : Z) :
  loop_guard cfg (keep_running st) (iteration st) = true ->
  tick_signal env = Some (signum, SigSampling) ->
  read_ok cfg env = true ->
  main_loop cfg (env :: script) st = Stopped (tick cfg env st) /\
  keep_running (tick cfg env st) = false /\
  iteration (tick cfg env st) = iteration st + 1 /\
  exists current previous elapsed tail,
    trace (tick cfg env st)
    = trace st ++ EvRead true :: EvPrintStats current previous elapsed :: tail /\
    existsb is_sleep tail = false.
Proof.
  intros Hguard Hsig Hread.
  destruct (tick_read_succeeded cfg env st Hread)
    as (current & tail & _ & Htrace & _ & _ & _ & _ & Hiter & Hkeep).
  cbv zeta in Htrace, Hkeep. rewrite Hsig in Hkeep.
  cbn [deliver at_sampling signal_handler] in Hkeep.
  change (loop_guard cfg false (iteration st + 1)) with false in Hkeep.
  destruct Hkeep as [Hkeep Hnosleep].
  assert (Hnone : existsb is_sleep tail = false).
  { apply not_true_is_false. intros H. apply existsb_exists in H.
    destruct H as ([] & Hin & He); try discriminate.
    exact (Hnosleep _ _ Hin). }
  split; [| split; [exact Hkeep | split; [exact Hiter |]]].
  - rewrite main_loop_guard_true by assumption.
    apply main_loop_guard_false. now rewrite Hkeep.
  - eexists _, _, _, tail. split; [exact Htrace | exact Hnone].
Qed.

Lemma signal_while_sampling_skips_sleep_witness :
  keep_running
    (tick (sample_config (-1))
       {| tick_source := sample_source "1000" "3000" 50;
          tick_signal := Some (SIGTERM, SigSampling) |}
       (loop_entry true)) = false.
Proof.
  exact (proj1 (proj2 (signal_while_sampling_skips_sleep (sample_config (-1))
    {| tick_source := sample_source "1000" "3000" 50;
       tick_signal := Some (SIGTERM, SigSampling) |}
    [] (loop_entry true) SIGTERM eq_refl eq_refl eq_refl))).
Defined.

(** X17: a signal delivered while a read is failing is not acted upon
    before the tick has slept its whole interval: the sleep behind the
    warning is not guarded by the flag, and a signal already handled
    does not interrupt it. The loop ends at the next test of its
    guard. *)
Theorem signal_during_failed_read_sleeps_on (cfg : config) (env : tick_env)
    (script : list tick_env) (st : loop_state) (signum : Z) :
  loop_guard cfg (keep_running st) (iteration st) = true ->
  tick_signal env = Some (signum, SigSampling) ->
  read_ok cfg env = false ->
  trace (tick cfg env st)
  = trace st ++ [EvRead false; EvWarning;
                 EvSleep (interval cfg) (interval cfg)] /\
  keep_running (tick cfg env st) = false /\
  main_loop cfg (env :: script) st = Stopped (tick cfg env st).
Proof.
  intros Hguard Hsig Hread.
  rewrite main_loop_guard_true by assumption.
  rewrite (tick_read_failed cfg env st Hread), Hsig.
  cbn. repeat split. now apply main_loop_guard_false.
Qed.

Lemma signal_during_failed_read_sleeps_on_witness :
  trace
    (tick (sample_config (-1))
       {| tick_source := source_without_eth0;
          tick_signal := Some (SIGINT, SigSampling) |}
       (loop_entry true))
  = [] ++ [EvRead false; EvWarning; EvSleep 2 2].
Proof.
  exact (proj1 (signal_during_failed_read_sleeps_on (sample_config (-1))
    {| tick_source := source_without_eth0;
       tick_signal := Some (SIGINT, SigSampling) |}
    [] (loop_entry true) SIGINT eq_refl eq_refl eq_refl)).
Defined.

(* ----------------------------------------------------------------- *)
(** ** What the deltas are taken against *)

Lemma read_success_valid (src : source) (interface_ : cstring)
    (stats : net_stats_t) :
  fst (read_net_stats src interface_ stats) = true ->
  valid (snd (read_net_stats src interface_ stats)) = true.
Proof.
  unfold read_net_stats. destruct (proc_net_dev src); [| discriminate].
  intros Hok.
  destruct (scan_lines_success_shape _ _ _ _ _ Hok) as (line & _ & Hparse & ->).
  rewrite parse_interface_line_eq in Hparse |- *.
  destruct (split_label (c_str line)) as [[label body] |]; [| discriminate].
  now destruct (_ && _ && _).
Qed.

Lemma print_calls_app (t u : list event) :
  print_calls (t ++ u) = print_calls t ++ print_calls u.
Proof.
  induction t as [| e t IH]; simpl; [reflexivity |].
  destruct e; simpl; now rewrite ?IH.
Qed.

Lemma chained_snoc (last : option net_stats_t)
    (calls : list (net_stats_t * option net_stats_t))
    (current : net_stats_t) (previous : option net_stats_t) :
  chained last calls -> previous = last_current last calls ->
  chained last (calls ++ [(current, previous)]).
Proof.
  revert last. induction calls as [| [c p] calls IH]; intros last; simpl.
  - intros _ ->. now split.
  - intros [-> Hrest] Hprev. split; [reflexivity |]. now apply IH.
Qed.

Lemma last_current_snoc (last : option net_stats_t)
    (calls : list (net_stats_t * option net_stats_t))
    (call : net_stats_t * option net_stats_t) :
  last_current last (calls ++ [call]) = Some (fst call).
Proof. unfold last_current. now rewrite fold_left_app. Qed.

(** The calls of [print_stats] a tick adds, and the previous snapshot
    it leaves. *)
Lemma tick_print_calls (cfg : config) (env : tick_env) (st : loop_state) :
  let result :=
    read_net_stats (tick_source env) (cfg_interface cfg) (current_stats st) in
  print_calls (trace (tick cfg env st))
  = print_calls (trace st)
    ++ (if fst result
        then [(snd result,
               if valid (previous_stats st) then Some (previous_stats st)
               else None)]
        else []) /\
  previous_stats (tick cfg env st)
  = if fst result then snd result else previous_stats st.
Proof.
  unfold tick.
  destruct (read_net_stats _ _ _) as [[] current]; cbn [negb fst snd].
  - destruct (HEADER_INTERVAL <=? _); cbv beta iota zeta;
      destruct (loop_guard cfg _ _); try destruct (sleep _ _ _);
      cbn [trace previous_stats]; rewrite print_calls_app;
      split; reflexivity.
  - destruct (sleep _ _ _). cbn [trace previous_stats].
    rewrite print_calls_app. split; reflexivity.
Qed.

Lemma tick_linked (cfg : config) (env : tick_env) (st : loop_state) :
  linked st -> linked (tick cfg env st).
Proof.
  unfold linked. intros [Hchain Hlast].
  destruct (tick_print_calls cfg env st) as [Hcalls Hprev]. cbv zeta in *.
  rewrite Hcalls, Hprev.
  destruct (fst (read_net_stats _ _ _)) eqn:Hok.
  - rewrite (read_success_valid _ _ _ Hok). split.
    + apply chained_snoc; [exact Hchain | now rewrite Hlast].
    + apply last_current_snoc.
  - rewrite app_nil_r. now split.
Qed.

(** X18: every line's deltas are taken against the line printed before
    it: in every run of the loop the first call of [print_stats] is
    given no previous snapshot, and each later call is given the current
    snapshot of the call before it, also when failed reads or any number
    of ticks lie between the two. *)
Theorem print_calls_are_chained (cfg : config) (script : list tick_env)
    (running : bool) :
  chained None
    (print_calls (trace (state_of (main_loop cfg script (loop_entry running))))).
Proof.
  apply (main_loop_invariant linked cfg
           (fun env st _ => tick_linked cfg env st) script (loop_entry running)).
  split; reflexivity.
Qed.

(* ----------------------------------------------------------------- *)
(** ** Command line and exit status *)

Lemma parse_options_positive (atoi : cstring -> Z) (n : nat) :
  forall args interval_ max_iterations_ interval' max_iterations',
    (List.length args <= n)%nat ->
    parse_options atoi args interval_ max_iterations_
    = inr (interval', max_iterations') ->
    0 < interval_ -> (max_iterations_ = -1 \/ 0 < max_iterations_) ->
    0 < interval' /\ (max_iterations' = -1 \/ 0 < max_iterations').
Proof.
  induction n as [| n IH]; intros args i m i' m' Hlen Hparse Hi Hm.
  - destruct args; [| simpl in Hlen; lia].
    simpl in Hparse. injection Hparse as <- <-. auto.
  - destruct args as [| arg rest].
    { simpl in Hparse. injection Hparse as <- <-. auto. }
    simpl in Hparse, Hlen.
    destruct (is_interval_option arg).
    + destruct rest as [| text rest']; [discriminate |].
      destruct (Z.leb_spec (atoi text) 0); [discriminate |].
      apply (IH rest' (atoi text) m); simpl in *; auto; lia.
    + destruct (is_count_option arg); [| discriminate].
      destruct rest as [| text rest']; [discriminate |].
      destruct (Z.leb_spec (atoi text) 0); [discriminate |].
      apply (IH rest' i (atoi text)); simpl in *; auto; lia.
Qed.

(** X19: every configuration the argument handling lets through has a
    positive interval and a count that is [-1] (none given) or
    positive, whatever [atoi] makes of the texts; its interface is
    [argv[1]] as it stands, and no argument asked for help. The loop
    therefore never sleeps a negative time and a bounded run has a
    positive bound. *)
Theorem parse_args_configuration (atoi : cstring -> Z) (argv : list cstring)
    (cfg : config) :
  parse_args atoi argv = inr cfg ->
  0 < interval cfg /\
  (max_iterations cfg = -1 \/ 0 < max_iterations cfg) /\
  nth_error argv 1 = Some (cfg_interface cfg) /\
  existsb is_help (tl argv) = false.
Proof.
  unfold parse_args.
  destruct (existsb is_help (tl argv)) eqn:Hhelp; [discriminate |].
  destruct argv as [| program [| interface_ options]];
    [discriminate | discriminate |]. cbn [tl].
  destruct (parse_options atoi options DEFAULT_INTERVAL (-1))
    as [messages | [interval_ max_iterations_]] eqn:Hoptions; [discriminate |].
  intros E. injection E as <-. simpl.
  destruct (parse_options_positive atoi (List.length options) options
              DEFAULT_INTERVAL (-1) interval_ max_iterations_
              (Nat.le_refl _) Hoptions) as [Hi Hm];
    [reflexivity | now left |].
  auto.
Qed.

Lemma parse_args_configuration_witness :
  0 < interval
        {| cfg_interface := list_ascii_of_string "ppp0";
           interval := 1; max_iterations := 60 |}.
Proof.
  exact (proj1 (parse_args_configuration
    (fun text => decimal_value text)
    (map list_ascii_of_string
       ["netstat_monitor"; "ppp0"; "-i"; "1"; "-n"; "60"]%string)
    {| cfg_interface := list_ascii_of_string "ppp0";
       interval := 1; max_iterations := 60 |}
    eq_refl)).
Defined.

(** X20: the options are taken from left to right, each on top of the
    values the ones before it have set: when a list of options is
    accepted, the same list followed by more options gives what those
    further options give from the values it has reached. An option
    given again thus replaces its earlier value. *)
Theorem parse_options_compose (atoi : cstring -> Z) (args more : list cstring)
    (interval_ max_iterations_ interval' max_iterations' : Z) :
  parse_options atoi args interval_ max_iterations_
  = inr (interval', max_iterations') ->
  parse_options atoi (args ++ more) interval_ max_iterations_
  = parse_options atoi more interval' max_iterations'.
Proof.
  assert (G : forall n args i m,
             (List.length args <= n)%nat ->
             parse_options atoi args i m = inr (interval', max_iterations') ->
             parse_options atoi (args ++ more) i m
             = parse_options atoi more interval' max_iterations').
  { induction n as [| n IH]; intros a i m Hlen Hparse.
    - destruct a; [| simpl in Hlen; lia].
      simpl in Hparse. injection Hparse as <- <-. reflexivity.
    - destruct a as [| arg rest].
      { simpl in Hparse. injection Hparse as <- <-. reflexivity. }
      simpl in Hparse, Hlen |- *.
      destruct (is_interval_option arg).
      + destruct rest as [| text rest']; [discriminate |]. simpl.
        destruct (atoi text <=? 0); [discriminate |].
        apply IH; [simpl in Hlen; lia | exact Hparse].
      + destruct (is_count_option arg); [| discriminate].
        destruct rest as [| text rest']; [discriminate |]. simpl.
        destruct (atoi text <=? 0); [discriminate |].
        apply IH; [simpl in Hlen; lia | exact Hparse]. }
  intros H. exact (G (List.length args) args _ _ (Nat.le_refl _) H).
Qed.

Lemma parse_options_compose_witness :
  parse_options decimal_value
    (map list_ascii_of_string ["-i"; "5"; "-n"; "7"]%string
     ++ map list_ascii_of_string ["--interval"; "1"]%string)
    2 (-1)
  = parse_options decimal_value
      (map list_ascii_of_string ["--interval"; "1"]%string) 5 7.
Proof.
  exact (parse_options_compose decimal_value
    (map list_ascii_of_string ["-i"; "5"; "-n"; "7"]%string)
    (map list_ascii_of_string ["--interval"; "1"]%string)
    2 (-1) 5 7 eq_refl).
Defined.

(** X21: [main] fails only before the loop: a run that has entered the
    loop and left it returns success, also when a signal stopped it,
    reports as its total the number of lines it printed, and says that
    a signal stopped it exactly when the flag is cleared; a run that
    returns failure has made no tick, and a run whose arguments ask for
    help returns success at once. A signal that arrives before the loop
    ends the run with success and a total of zero. *)
Theorem main_exit_status (atoi : cstring -> Z) (argv : list cstring)
    (w : world) :
  (forall status messages st,
      main atoi argv w = Exited status messages (Some st) ->
      status = EXIT_SUCCESS /\
      In (MsgTotalIterations (Z.of_nat (prints (trace st)))) messages /\
      (In MsgStoppedBySignal messages <-> keep_running st = false)) /\
  (forall messages final,
      main atoi argv w = Exited EXIT_FAILURE messages final -> final = None) /\
  (existsb is_help (tl argv) = true ->
   main atoi argv w = Exited EXIT_SUCCESS [MsgUsage] None) /\
  (forall cfg signum,
      parse_args atoi argv = inr cfg ->
      fst (read_net_stats (startup_source w) (cfg_interface cfg) zero_stats)
      = true ->
      early_signal w = Some signum ->
      main atoi argv w
      = Exited EXIT_SUCCESS
          [MsgMonitoring cfg; MsgStoppedBySignal; MsgTotalIterations 0]
          (Some (loop_entry false))).
Proof.
  unfold main. split; [| split; [| split]].
  - intros status messages st.
    destruct (parse_args atoi argv) as [[s m] | cfg]; [discriminate |].
    destruct (read_net_stats _ _ _) as [[] initial_stats]; [| discriminate].
    cbn [negb].
    set (flag := match early_signal w with
                 | Some signum => signal_handler signum true
                 | None => true
                 end).
    pose proof (run_counted cfg (script w) flag) as [Hprints _].
    destruct (main_loop cfg (script w) (loop_entry flag)) as [st' | st'];
      [| discriminate].
    intros E. injection E as <- <- <-. simpl in Hprints.
    split; [reflexivity | split].
    + rewrite <- Hprints. right.
      apply in_or_app. right. now left.
    + destruct (keep_running st'); simpl; split; intros H;
        try discriminate; try reflexivity; try tauto.
      destruct H as [H | [H | []]]; discriminate.
  - intros messages final.
    destruct (parse_args atoi argv) as [[s m] | cfg].
    + intros E. now injection E.
    + destruct (read_net_stats _ _ _) as [[] initial_stats]; cbn [negb].
      * destruct (main_loop _ _ _); discriminate.
      * intros E. now injection E.
  - intros Hhelp. unfold parse_args. now rewrite Hhelp.
  - intros cfg signum -> Hread ->.
    destruct (read_net_stats _ _ _) as [[] initial_stats]; [| discriminate].
    cbn [negb]. change (signal_handler signum true) with false.
    now rewrite (main_loop_guard_false cfg (script w) (loop_entry false)).
Qed.

(* ----------------------------------------------------------------- *)
(** ** The first row that parses *)

(** X22: of several rows that would parse for the interface, the first
    one is returned: behind the header, once the rows that do not parse
    are passed, the first row that parses ends the scan, and what stands
    behind it in the source has no part in the result. *)
Theorem first_parsing_row_wins (before after : list (list ascii))
    (row : list ascii) (line_num : Z) (interface_ : cstring)
    (clock : option timespec) (stats : net_stats_t) :
  2 <= line_num ->
  Forall (fun line =>
            fst (parse_interface_line (c_str line) interface_ stats) = false)
    before ->
  fst (parse_interface_line (c_str row) interface_ stats) = true ->
  scan_lines (before ++ row :: after) line_num interface_ clock stats
  = (true,
     set_timestamp
       match clock with
       | Some now => now
       | None => {| tv_sec := 0; tv_nsec := 0 |}
       end
       (snd (parse_interface_line (c_str row) interface_ stats))).
Proof.
  intros Hnum Hbefore Hrow. revert line_num Hnum.
  induction Hbefore as [| line before Hline _ IH]; intros line_num Hnum.
  - simpl app. now rewrite scan_lines_hit by assumption.
  - simpl app. now rewrite scan_lines_skip, IH by (assumption || lia).
Qed.

Lemma first_parsing_row_wins_witness :
  counters
    (snd (scan_lines
            ([list_ascii_of_string "    lo: 100 2 0 0 0 0 0 0 100 2 0 0 0 0 0 0"]
             ++ list_ascii_of_string
                  "  eth0: 1 2 3 4 5 6 7 8 9 10 11 12 13 14 15 16"
             :: [list_ascii_of_string
                   "  eth0: 9 9 9 9 9 9 9 9 9 9 9 9 9 9 9 9"])
            2 (list_ascii_of_string "eth0") None zero_stats))
  = [1; 2; 3; 4; 9; 10; 11; 12].
Proof.
  rewrite (first_parsing_row_wins
             [list_ascii_of_string "    lo: 100 2 0 0 0 0 0 0 100 2 0 0 0 0 0 0"]
             [list_ascii_of_string "  eth0: 9 9 9 9 9 9 9 9 9 9 9 9 9 9 9 9"]
             (list_ascii_of_string
                "  eth0: 1 2 3 4 5 6 7 8 9 10 11 12 13 14 15 16")
             2 (list_ascii_of_string "eth0") None zero_stats).
  - reflexivity.
  - lia.
  - repeat constructor.
  - reflexivity.
Defined.
